(** * MADNESS: function handles, the KAIN solver step and the libxc wrapper

    A shallow embedding of
      - [src/lib/mra/mra.h]                 (class [Function], the handle onto a
                                             [FunctionImpl] tree container),
      - [src/lib/linalg/kain.cc]            (the template function [KAIN]),
      - [src/apps/chem/xcfunctional_libxc.cc] ([XCfunctional]: [make_libxc_args],
                                             [exc], [vxc], [fxc_apply]),
    followed by the properties of these functions.

    Conventions.  A C++ [double] is a primitive binary64 float, so NaN and
    rounding are those of the machine.  A [Tensor<double>] is the list of its
    elements in storage order.  Code that can throw, fail an assertion or
    leave the defined behaviour of C++ returns a [result]. *)

From Stdlib Require Import ZArith Floats Lia.
From stdpp Require Import gmap strings list.

Local Open Scope Z_scope.

(* ===================================================================== *)
(** * Failures *)
(* ===================================================================== *)

(** The ways in which the modelled code stops without a value. *)
Inductive error : Type :=
| AssertionFailed (cond : string)   (* MADNESS_ASSERT(cond) did not hold      *)
| MadnessException (msg : string)   (* MADNESS_EXCEPTION(msg,1)               *)
| Thrown (msg : string)             (* throw "msg";                           *)
| TensorException (msg : string)    (* the tensor library rejects the shapes  *)
| InvalidPointer                    (* operator* or -> on a SharedPtr that holds no object *)
| OutOfBounds.                      (* read or write outside an array         *)

Inductive result (A : Type) : Type :=
| Ok (a : A)
| Err (e : error).
Arguments Ok {A} a.
Arguments Err {A} e.

Definition rbind {A B} (r : result A) (f : A -> result B) : result B :=
  match r with
  | Ok a => f a
  | Err e => Err e
  end.

Declare Scope result_scope.
Delimit Scope result_scope with result.
Notation "'do' x <- r ; k" := (rbind r (fun x => k))
  (at level 10, x pattern, r at level 100, k at level 200) : result_scope.
Local Open Scope result_scope.

Definition of_option {A} (o : option A) (e : error) : result A :=
  match o with
  | Some a => Ok a
  | None => Err e
  end.

(** [r] is not the failure of a [MADNESS_ASSERT]. *)
Definition no_assert {A} (r : result A) : Prop :=
  forall cond, r <> Err (AssertionFailed cond).

(** [for (i = ...) body(i)] where the body may fail and produces one value
    for each index. *)
Fixpoint for_each {A B} (f : A -> result B) (l : list A) : result (list B) :=
  match l with
  | [] => Ok []
  | a :: l' => do b <- f a; do bs <- for_each f l'; Ok (b :: bs)
  end.

(** The indices [0, 1, ..., n-1] of a loop [for (long i=0; i<n; i++)];
    empty when [n <= 0]. *)
Definition upto (n : Z) : list nat := seq 0 (Z.to_nat n).

(* ===================================================================== *)
(** * linalg/kain.cc *)
(* ===================================================================== *)

Module Kain.

(** What the template parameter [T] of [KAIN] has to provide: the
    literals [0.0] and [1.0], [+=] and binary [-]. *)
Class Scalar (T : Type) : Type := {
  zero : T;
  one : T;
  add : T -> T -> T;
  sub : T -> T -> T
}.

(** [T = double]. *)
#[global] Instance double_scalar : Scalar float := {|
  zero := 0%float;
  one := 1%float;
  add := PrimFloat.add;
  sub := PrimFloat.sub
|}.

(** An exact instance: the integers. *)
#[global] Instance Z_scalar : Scalar Z := {|
  zero := 0;
  one := 1;
  add := Z.add;
  sub := Z.sub
|}.

(** A two-dimensional [Tensor<T>] as the list of its rows. *)
Abbreviation matrix T := (list (list T)).

(** [Q.dim[0]] *)
Definition dim0 {T} (Q : matrix T) : Z := Z.of_nat (length Q).

(** [Q(i,j)]; outside the tensor the access is not defined. *)
Definition at2 {T} (Q : matrix T) (i j : nat) : result T :=
  of_option (Q !! i ≫= fun row => row !! j) OutOfBounds.

(** [x(i)] *)
Definition at1 {T} (x : list T) (i : nat) : result T :=
  of_option (x !! i) OutOfBounds.

(** [double rcond = 1e-12;] (the binary64 value nearest to 1e-12) *)
Definition rcond : float := 0x1.19799812dea11p-40%float.

Section KAIN.
Context {T : Type} `{Scalar T}.

(** [gelss(A, b, rcond, &x, &s, &rank)] of linalg/tensor_lapack.h, the
    LAPACK least-squares driver: from [A], [b] and [rcond] it produces the
    solution [x] (the singular values and the rank are only printed). *)
Variable gelss : matrix T -> list T -> float -> result (list T).

(** The loop nest that fills [b] and [A]:
<<
    for (long i=0; i<m; i++) {
        b(i) = Q(m,m) - Q(i,m);
        for (long j=0; j<m; j++)
            A(i,j) = Q(i,j) - Q(m,j) - Q(i,m) + Q(m,m);
    }
>> *)
Definition A_entry (Q : matrix T) (m i j : nat) : result T :=
  do qij <- at2 Q i j;
  do qmj <- at2 Q m j;
  do qim <- at2 Q i m;
  do qmm <- at2 Q m m;
  Ok (add (sub (sub qij qmj) qim) qmm).

Definition b_entry (Q : matrix T) (m i : nat) : result T :=
  do qmm <- at2 Q m m;
  do qim <- at2 Q i m;
  Ok (sub qmm qim).

Definition system (Q : matrix T) (m : Z) : result (matrix T * list T) :=
  do rows <- for_each (fun i =>
               do bi <- b_entry Q (Z.to_nat m) i;
               do Ai <- for_each (A_entry Q (Z.to_nat m) i) (upto m);
               Ok (Ai, bi)) (upto m);
  Ok (rows.*1, rows.*2).

(** [T sumC = 0.0; for (long i=0; i<m; i++) sumC += x(i);] *)
Fixpoint accumulate (x : list T) (idx : list nat) (sumC : T) : result T :=
  match idx with
  | [] => Ok sumC
  | i :: idx' => do xi <- at1 x i; accumulate x idx' (add sumC xi)
  end.

Definition KAIN (Q : matrix T) : result (list T) :=
  let nvec := dim0 Q in
  let m := nvec - 1 in
  if nvec =? 1 then
    (* Tensor<T> c(1); c(0L) = 1.0; return c; *)
    Ok [one]
  else if m <? 0 then
    (* Tensor<T> A(m,m) with a negative extent *)
    Err (TensorException "negative dimension")
  else
    do Ab <- system Q m;
    do x <- gelss Ab.1 Ab.2 rcond;
    do sumC <- accumulate x (upto m) zero;
    (* c(Slice(0,m-1)) = x;  the slice has m elements and so must x *)
    if negb (Z.of_nat (length x) =? m) then
      Err (TensorException "slice assignment of a tensor of another size")
    else
      (* c(m) = 1.0 - sumC; *)
      Ok (x ++ [sub one sumC]).

End KAIN.

(** The sum of the entries of a coefficient vector, accumulated from
    [0.0] in index order as [KAIN] accumulates [sumC]. *)
Definition total {T} `{Scalar T} (c : list T) : T := fold_left add c zero.

(** [Q] is an [n] by [n] tensor. *)
Definition square {T} (n : nat) (Q : matrix T) : Prop :=
  length Q = n /\ Forall (fun row => length row = n) Q.

(** The arithmetic of [T] is exact where [KAIN] needs it: adding [1.0] to
    [0.0] gives [1.0], and taking [s] from [1.0] and adding [s] again
    gives [1.0] back.  Every ring satisfies this. *)
Definition exact_complement (T : Type) `{Scalar T} : Prop :=
  add zero one = one /\ forall s : T, add s (sub one s) = one.

(** LAPACK on double precision systems of one equation in one unknown:
    the least-squares solution of [a x = b] of minimal norm. *)
Definition gelss_1x1 (A : matrix float) (b : list float) (rc : float)
  : result (list float) :=
  match A, b with
  | [[a]], [b0] => if (a =? 0)%float then Ok [0%float] else Ok [(b0 / a)%float]
  | _, _ => Err (TensorException "gelss_1x1: not a 1x1 system")
  end.

(** An exact solver for the integers that answers with the right-hand
    side (the solution when [A] is the identity). *)
Definition gelss_id (A : matrix Z) (b : list Z) (rc : float)
  : result (list Z) := Ok b.

(** A two by two matrix of doubles on which the system of [KAIN] is
    [2^-57 x = 1]. *)
Definition Q_small_pivot : matrix float :=
  [[-1; -1]; [0; 0x1p-57]]%float.

(** The three by three identity matrix over the integers. *)
Definition Q_identity3 : matrix Z := [[1; 0; 0]; [0; 1; 0]; [0; 0; 1]].

End Kain.


(* ===================================================================== *)
(** * lib/mra/mra.h *)
(* ===================================================================== *)

(** What class [Function<T,NDIM>] uses of [FunctionImpl<T,NDIM>], of
    [FunctionFactory], [Key], [Future] and [World].  Their headers
    (mra/funcimpl.h, mra/key.h, world/world.h) are not part of the sources at
    hand, so [Function] is embedded over any implementation of them.  A
    member function of the container that may communicate returns the
    messages it issues. *)
Class FunctionImpl : Type := {
  implT : Type;                                  (* FunctionImpl<T,NDIM>         *)
  valueT : Type;                                 (* T                            *)
  coordT : Type;                                 (* implT::coordT                *)
  keyT : Type;                                   (* Key<NDIM>                    *)
  pmapT : Type;                                  (* WorldDCPmapInterface<Key>    *)
  factoryT : Type;                               (* FunctionFactory<T,NDIM>      *)
  msgT : Type;                                   (* what is sent through World   *)
  (* new FunctionImpl<T,NDIM>(factory) *)
  impl_new : factoryT -> implT * list msgT;
  (* new implT( *impl, pmap); a null pmap is [None] *)
  impl_new_copy : implT -> option pmapT -> implT;
  (* result.impl->copy_coeffs( *impl) *)
  impl_copy_coeffs : implT -> implT -> implT * list msgT;
  (* impl->is_compressed(), a const member *)
  impl_is_compressed : implT -> bool;
  (* impl->compress(fence) *)
  impl_compress : bool -> implT -> implT * list msgT;
  (* impl->reconstruct(fence) *)
  impl_reconstruct : bool -> implT -> implT * list msgT;
  (* impl->user_to_sim(xuser,xsim) *)
  impl_user_to_sim : implT -> coordT -> coordT;
  (* impl->key0() *)
  impl_key0 : implT -> keyT;
  (* impl->eval(xsim, key, ref): the value the future receives *)
  impl_eval : coordT -> keyT -> implT -> valueT * list msgT;
  (* impl->print_tree(), a const member, collective *)
  impl_print_tree : implT -> list msgT
}.

Module Function.

Section Handle.
Context {FI : FunctionImpl}.

(** The objects that shared pointers point to, and the traffic so far. *)
Record world : Type := World {
  heap : gmap positive implT;
  sent : list msgT
}.

(** [class Function]: its only member is
    [SharedPtr< FunctionImpl<T,NDIM> > impl], null or the address of a
    container on the heap. *)
Record Function : Type := Handle {
  impl : option positive
}.

(** A computation that reads and changes the world, or fails. *)
Definition M (A : Type) : Type := world -> result (A * world).

Definition ret {A} (a : A) : M A := fun w => Ok (a, w).

Definition bind {A B} (m : M A) (k : A -> M B) : M B :=
  fun w => do aw <- m w; k aw.1 aw.2.

Definition fail {A} (e : error) : M A := fun _ => Err e.

(** [*p] for a non-null shared pointer [p]. *)
Definition deref (p : positive) : M implT :=
  fun w => do i <- of_option (heap w !! p) InvalidPointer; Ok (i, w).

(** [p->method(args)] for a member function that changes the container
    and may communicate. *)
Definition call (p : positive) (method : implT -> implT * list msgT) : M unit :=
  fun w =>
    do i <- of_option (heap w !! p) InvalidPointer;
    let r := method i in
    Ok (tt, World (<[p := r.1]> (heap w)) (sent w ++ r.2)).

(** [SharedPtr<implT>(new implT(...))]: a container at an unused address. *)
Definition new (i : implT) : M positive :=
  fun w =>
    let p := fresh (dom (heap w)) in
    Ok (p, World (<[p := i]> (heap w)) (sent w)).

(** Messages sent through [World]. *)
Definition send (msgs : list msgT) : M unit :=
  fun w => Ok (tt, World (heap w) (sent w ++ msgs)).

End Handle.

Declare Scope M_scope.
Delimit Scope M_scope with M.
Notation "'let!' x ':=' m 'in' k" := (bind m (fun x => k))
  (at level 10, x pattern, m at level 100, k at level 200) : M_scope.
Notation "m ';;' k" := (bind m (fun _ => k))
  (at level 100, k at level 200, right associativity) : M_scope.

Section Members.
Context {FI : FunctionImpl}.
Local Open Scope M_scope.

(** [*impl] and [impl->]: the container the handle points to. *)
Definition arrow (this : Function) : M implT :=
  match impl this with
  | Some p => deref p
  | None => fail InvalidPointer
  end.

(** [inline void verify() const { MADNESS_ASSERT(impl); }] *)
Definition verify (this : Function) : M unit :=
  match impl this with
  | Some _ => ret tt
  | None => fail (AssertionFailed "impl")
  end.

(** [Function() : impl(0) {}] *)
Definition default : Function := Handle None.

(** [Function(const factoryT& factory)
       : impl(new FunctionImpl<T,NDIM>(factory)) {}] *)
Definition from_factory (factory : factoryT) : M Function :=
  let made := impl_new factory in
  let! p := new made.1 in
  send made.2 ;;
  ret (Handle (Some p)).

(** [Function(const Function<T,NDIM>& f) : impl(f.impl) {}] *)
Definition copy_construct (f : Function) : M Function :=
  ret (Handle (impl f)).

(** [operator=]:
<<
    if (this != &f) impl = f.impl;
    return *this;
>>
    [same_object] is the outcome of [this == &f]; the result is the handle
    [*this] after the assignment. *)
Definition assign (same_object : bool) (this f : Function) : M Function :=
  if negb same_object then ret (Handle (impl f)) else ret this.

(** [Future<T> eval(const coordT& xuser)]:
<<
    verify();
    coordT xsim;
    impl->user_to_sim(xuser,xsim);
    Future<T> result;
    impl->eval(xsim, impl->key0(), result.remote_ref(impl->world));
    return result;
>>
    The future is represented by the value it receives. *)
Definition eval (this : Function) (xuser : coordT) : M valueT :=
  verify this ;;
  let! i := arrow this in
  let xsim := impl_user_to_sim i xuser in
  let r := impl_eval xsim (impl_key0 i) i in
  send r.2 ;;
  ret r.1.

(** [bool is_compressed() const]:
<<
    if (impl) return impl->is_compressed();
    else return false;
>> *)
Definition is_compressed (this : Function) : M bool :=
  match impl this with
  | Some p => let! i := deref p in ret (impl_is_compressed i)
  | None => ret false
  end.

(** [void compress(bool fence = true)]:
<<
    if (!impl || is_compressed()) return;
    impl->compress(fence);
>> *)
Definition compress (this : Function) (fence : bool) : M unit :=
  match impl this with
  | None => ret tt
  | Some p =>
      let! c := is_compressed this in
      if c then ret tt else call p (impl_compress fence)
  end.

(** [void reconstruct(bool fence = true)]:
<<
    if (!impl || !is_compressed()) return;
    impl->reconstruct(fence);
>> *)
Definition reconstruct (this : Function) (fence : bool) : M unit :=
  match impl this with
  | None => ret tt
  | Some p =>
      let! c := is_compressed this in
      if negb c then ret tt else call p (impl_reconstruct fence)
  end.

(** [void print_tree() const {if (impl) impl->print_tree();}] *)
Definition print_tree (this : Function) : M unit :=
  match impl this with
  | Some p => let! i := deref p in send (impl_print_tree i)
  | None => ret tt
  end.

(** [get_impl() const { verify(); return impl; }] *)
Definition get_impl (this : Function) : M (option positive) :=
  verify this ;;
  ret (impl this).

(** [Function<T,NDIM> copy(pmap = 0) const]:
<<
    Function<T,NDIM> result;
    result.impl = SharedPtr<implT>(new implT( *impl,pmap));
    result.impl->copy_coeffs( *impl);
    return result;
>> *)
Definition copy (this : Function) (pmap : option pmapT) : M Function :=
  let! src := arrow this in
  let! q := new (impl_new_copy src pmap) in
  call q (fun dst => impl_copy_coeffs dst src) ;;
  ret (Handle (Some q)).

End Members.

End Function.

(** The free function [madness::copy(f, pmap)]: [return f.copy(pmap);] *)
Definition copy {FI : FunctionImpl} (f : Function.Function) (pmap : option pmapT)
  : Function.M Function.Function :=
  Function.copy f pmap.

(* ===================================================================== *)
(** * The tree container *)
(* ===================================================================== *)

Module Tree.

(** Modelled from the spec: the Address of a box (mra/key.h is not part of
    the sources), a refinement level and one translation index for each
    dimension.  The root has level 0. *)
Abbreviation Key := (N * list N)%type.

(** Modelled from the spec: the two components of an Address. *)
Definition level (key : Key) : N := key.1.
Definition translation (key : Key) : list N := key.2.

(** Modelled from the spec: the root Address has level 0. *)
Definition root (ndim : nat) : Key := (0%N, replicate ndim 0%N).

(** Modelled from the spec: the [2^NDIM] children of a box have level+1
    and translation [2t] or [2t+1] on each axis. *)
Fixpoint child_translations (t : list N) : list (list N) :=
  match t with
  | [] => [[]]
  | x :: t' =>
      rest ← child_translations t';
      [(2 * x)%N :: rest; (2 * x + 1)%N :: rest]
  end.

Definition children (key : Key) : list Key :=
  pair (level key + 1)%N <$> child_translations (translation key).

(** Modelled from the spec: a Node holds a coefficient array and a flag
    that tells whether its Address has materialized children. *)
Record Node : Type := {
  coeff : list float;
  has_children : bool
}.

(** Modelled from the spec: (3) in the reconstructed representation a
    leaf carries scaling coefficients and an internal node carries none. *)
Definition leaf (s : list float) : Node := {| coeff := s; has_children := false |}.
Definition interior : Node := {| coeff := []; has_children := true |}.

(** Modelled from the spec: (3, 4.7) the traffic between compute units:
    the data of a node for its owner, and collective operations. *)
Inductive message : Type :=
| NodeData (key : Key) (owner : N)   (* the node of [key] goes to [owner] *)
| Collective (what : string).        (* every unit takes part             *)

(** Modelled from the spec: the numerical kernels the container relies on
    (mra/twoscale.h, mra/legendre.h and the bodies of mra/funcimpl.h are not
    part of the sources): the quadrature points of a box for order [k], the
    projection of samples at these points on the polynomial basis of the
    box, the estimate of the truncation error, the two transforms and the
    evaluation of the expansion at a point. *)
Record Numerics : Type := {
  quadrature : Z -> Key -> list (list float);
  project : Z -> Key -> list float -> list float;
  truncation_error : Z -> list float -> float;
  compress_nodes : bool -> gmap Key Node -> gmap Key Node * list message;
  reconstruct_nodes : bool -> gmap Key Node -> gmap Key Node * list message;
  eval_nodes : Z -> gmap Key Node -> list float -> Key -> float * list message
}.

(** Modelled from the spec: [FunctionImpl] (mra/funcimpl.h is not part of
    the sources).  The container owns its Nodes and the metadata:
    polynomial order [k], truncation threshold, dimensionality, level cap,
    the representation flag and the distribution map (Address to owning
    compute unit). *)
Record impl : Type := {
  k : Z;
  thresh : float;
  ndim : nat;
  max_level : N;
  compressed : bool;
  pmap : Key -> N;
  nodes : gmap Key Node
}.

(** Modelled from the spec: [FunctionFactory] (mra/funcimpl.h), the input
    of the construction: the
    scalar-field callback, threshold, polynomial order, maximum level, the
    refine flag, and the distribution map of the new tree. *)
Record factory : Type := {
  f_callback : list float -> float;
  f_thresh : float;
  f_k : Z;
  f_ndim : nat;
  f_max_level : N;
  f_refine : bool;
  f_pmap : Key -> N
}.

Section Container.
Variable num : Numerics.

(** Modelled from the spec: (4.1) sample the callback at the quadrature
    points of the box and project on its polynomial basis. *)
Definition box_coeffs (fac : factory) (key : Key) : list float :=
  project num (f_k fac) key (f_callback fac <$> quadrature num (f_k fac) key).

(** Modelled from the spec: the refinement in the constructor of
    [FunctionImpl] from a factory (4.1).  The tree is built box by box.  If the
    estimated error exceeds the threshold, the level is below the cap and
    refinement is enabled, the children are materialized and visited, and
    the box keeps no coefficients; otherwise the box is a leaf with its
    scaling coefficients.  [fuel] is the number of levels left below the
    cap. *)
Fixpoint refine_box (fac : factory) (fuel : nat) (key : Key)
    (t : gmap Key Node) : gmap Key Node :=
  let s := box_coeffs fac key in
  match fuel with
  | O => <[key := leaf s]> t
  | S fuel' =>
      if (f_thresh fac <? truncation_error num (f_k fac) s)%float
         && (level key <? f_max_level fac)%N
         && f_refine fac
      then foldr (refine_box fac fuel') (<[key := interior]> t) (children key)
      else <[key := leaf s]> t
  end.

(** Modelled from the spec: the constructor of [FunctionImpl] from a
    factory (4.1); the result is in the reconstructed representation. *)
Definition construct (fac : factory) : impl := {|
  k := f_k fac;
  thresh := f_thresh fac;
  ndim := f_ndim fac;
  max_level := f_max_level fac;
  compressed := false;
  pmap := f_pmap fac;
  nodes := refine_box fac (N.to_nat (f_max_level fac)) (root (f_ndim fac)) ∅
|}.

(** Modelled from the spec: the constructor [implT(other, pmap)] of
    [FunctionImpl] (3, 5).  The deep copy builds a new container
    with the metadata of the source, under the given distribution map if
    there is one and under that of the source otherwise; it has no nodes
    yet. *)
Definition new_copy (src : impl) (new_pmap : option (Key -> N)) : impl := {|
  k := k src;
  thresh := thresh src;
  ndim := ndim src;
  max_level := max_level src;
  compressed := compressed src;
  pmap := default (pmap src) new_pmap;
  nodes := ∅
|}.

(** Modelled from the spec: (3) a unit holds the nodes that the
    distribution map gives to it, so a node that the map of the copy gives
    to another unit than the map of the source travels to its new owner. *)
Definition moved (dst src : impl) : list message :=
  (fun kn : Key * Node => NodeData kn.1 (pmap dst kn.1)) <$>
  filter (fun kn : Key * Node => pmap dst kn.1 ≠ pmap src kn.1)
         (map_to_list (nodes src)).

(** Modelled from the spec: [FunctionImpl::copy_coeffs] (3); the copy
    receives the coefficients of the source. *)
Definition copy_coeffs (dst src : impl) : impl * list message :=
  ({| k := k dst;
      thresh := thresh dst;
      ndim := ndim dst;
      max_level := max_level dst;
      compressed := compressed dst;
      pmap := pmap dst;
      nodes := nodes src |},
   moved dst src).

(** Modelled from the spec: (4.2, 4.3) the transforms replace the
    coefficients and switch the representation flag. *)
Definition set_nodes (i : impl) (c : bool) (t : gmap Key Node) : impl := {|
  k := k i;
  thresh := thresh i;
  ndim := ndim i;
  max_level := max_level i;
  compressed := c;
  pmap := pmap i;
  nodes := t
|}.

(** Modelled from the spec: [FunctionImpl::compress] (4.2); afterwards
    the tree is in the compressed representation. *)
Definition compress (fence : bool) (i : impl) : impl * list message :=
  let r := compress_nodes num fence (nodes i) in
  (set_nodes i true r.1, r.2).

(** Modelled from the spec: [FunctionImpl::reconstruct] (4.3); afterwards
    the tree is in the reconstructed representation. *)
Definition reconstruct (fence : bool) (i : impl) : impl * list message :=
  let r := reconstruct_nodes num fence (nodes i) in
  (set_nodes i false r.1, r.2).

(** Modelled from the spec: [FunctionImpl::print_tree] (4.7), a
    collective that reads only. *)
Definition print_tree (i : impl) : list message := [Collective "print_tree"].

(** Modelled from the spec: the tree container as an implementation of
    what [Function] uses.  User and simulation coordinates coincide (the
    unit cube). *)
Definition tree_impl : FunctionImpl := {|
  implT := impl;
  valueT := float;
  coordT := list float;
  keyT := Key;
  pmapT := Key -> N;
  factoryT := factory;
  msgT := message;
  impl_new := fun fac => (construct fac, []);
  impl_new_copy := new_copy;
  impl_copy_coeffs := copy_coeffs;
  impl_is_compressed := compressed;
  impl_compress := compress;
  impl_reconstruct := reconstruct;
  impl_user_to_sim := fun _ x => x;
  impl_key0 := fun i => root (ndim i);
  impl_eval := fun x key i => eval_nodes num (k i) (nodes i) x key;
  impl_print_tree := print_tree
|}.

End Container.

(** ** A small instance of the kernels: one sample at the midpoint of each
    box, kept as the only coefficient; the error estimate is its magnitude,
    the transforms leave the coefficients alone and the evaluation reads the
    coefficient stored at the starting Address. *)

Definition float_of_N (n : N) : float :=
  PrimFloat.of_uint63 (Uint63.of_Z (Z.of_N n)).

(** [(2t+1) / 2^(level+1)] on each axis *)
Definition midpoint (key : Key) : list float :=
  (fun t => Z.ldexp (float_of_N (2 * t + 1)) (- Z.of_N (level key + 1)))
  <$> translation key.

Definition midpoint_numerics : Numerics := {|
  quadrature := fun _ key => [midpoint key];
  project := fun _ _ samples => samples;
  truncation_error := fun _ s => PrimFloat.abs (hd 0%float s);
  compress_nodes := fun _ t => (t, []);
  reconstruct_nodes := fun _ t => (t, []);
  eval_nodes := fun _ t _ key =>
    (match t !! key with Some n => hd 0%float (coeff n) | None => 0%float end, [])
|}.

(** The callback [x] in one dimension. *)
Definition first_coordinate (x : list float) : float := hd 0%float x.

Definition line_factory (callback : list float -> float) : factory := {|
  f_callback := callback;
  f_thresh := 0x1p-2%float;
  f_k := 1;
  f_ndim := 1;
  f_max_level := 2;
  f_refine := true;
  f_pmap := fun _ => 0%N
|}.

End Tree.

(** ** Worlds to run the handle in *)

Module Example.

Abbreviation impl0 := (Tree.tree_impl Tree.midpoint_numerics).
Abbreviation world0 := (@Function.world impl0).
Abbreviation Function0 := Function.Function.

(** Nothing allocated, nothing sent. *)
Definition empty_world : world0 := Function.World ∅ [].

(** The container built from [line_factory first_coordinate]. *)
Definition line_tree : Tree.impl :=
  Tree.construct Tree.midpoint_numerics (Tree.line_factory Tree.first_coordinate).

(** The world after [Function f(factory)]: [line_tree] at address 1. *)
Definition line_world : world0 := Function.World {[ 1%positive := line_tree ]} [].

(** The handle [f] of that world. *)
Definition line_handle : Function0 := Function.Handle (Some 1%positive).

(** The world after [f.compress()]. *)
Definition compressed_world : world0 :=
  Function.World {[ 1%positive := Tree.set_nodes line_tree true (Tree.nodes line_tree) ]} [].

End Example.

(* ===================================================================== *)
(** * apps/chem/xcfunctional_libxc.cc *)
(* ===================================================================== *)

Module XCfunctional.

Local Open Scope float_scope.

(** [info->family] of a libxc functional, as far as the code looks at it. *)
Inductive xc_family : Type :=
| XC_FAMILY_LDA
| XC_FAMILY_GGA
| XC_FAMILY_HYB_GGA
| XC_FAMILY_MGGA
| XC_FAMILY_OTHER (code : Z).

(** [xc_func_type]: [info->number] and [info->family]. *)
Record xc_func_type : Type := {
  number : Z;
  family : xc_family
}.

(** [enum xc_contribution] *)
Inductive xc_contribution : Type :=
| potential_rho
| potential_same_spin
| potential_mixed_spin
| kernel_second_local
| kernel_second_semilocal
| kernel_first_semilocal.

(** The data members of [class XCfunctional]. *)
Record XCfunctional : Type := {
  rhotol : float;
  rhomin : float;
  ggatol : float;
  nderiv : Z;
  spin_polarized : bool;
  hf_coeff : float;
  funcs : list (xc_func_type * float)
}.

(** [XCfunctional::XCfunctional() : hf_coeff(0.0)]:
    [rhotol=1e-7; rhomin=0.0; ggatol=1.e-4; nderiv=0; spin_polarized=false;] *)
Definition XCfunctional_default : XCfunctional := {|
  rhotol := 0x1.ad7f29abcaf48p-24;
  rhomin := 0;
  ggatol := 0x1.a36e2eb1c432dp-14;
  nderiv := 0;
  spin_polarized := false;
  hf_coeff := 0;
  funcs := []
|}.

(** What the code takes from chem/xcfunctional.h, which is not part of the
    sources: the positions of the intermediates in [xc_args] and the two
    screening functions of the density. *)
Class Header : Type := {
  enum_rhoa : nat;
  enum_rhob : nat;
  enum_chi_aa : nat;
  enum_chi_ab : nat;
  enum_chi_bb : nat;
  enum_rho_pt : nat;
  enum_sigma_pta_div_rho : nat;
  munge : XCfunctional -> float -> float;
  binary_munge : XCfunctional -> float -> float -> float
}.

(** The routines of the external library libxc (xc.h).  Each takes the
    functional, the number of points and the input arrays, and answers with
    the arrays it writes. *)
Class Libxc : Type := {
  xc_lda_exc : xc_func_type -> Z -> list float -> list float;
  xc_gga_exc : xc_func_type -> Z -> list float -> list float -> list float;
  xc_lda_vxc : xc_func_type -> Z -> list float -> list float;
  xc_gga_vxc : xc_func_type -> Z -> list float -> list float
               -> list float * list float;
  xc_lda_fxc : xc_func_type -> Z -> list float -> list float;
  xc_gga_fxc : xc_func_type -> Z -> list float -> list float
               -> list float * list float * list float
}.

(** [isnan_x]: [volatile double y = x; return x != y;] *)
Definition isnan_x (x : float) : bool := negb (x =? x).

(** [std::max(a,b)]: [(a < b) ? b : a] *)
Definition std_max (a b : float) : float := if a <? b then b else a.

(** [a[i]] for an array or a [std::vector]; outside of it the access is
    not defined. *)
Definition rd {A} (a : list A) (i : nat) : result A :=
  of_option (a !! i) OutOfBounds.

(** [a[i]] for an index computed with [int]s. *)
Definition rdZ {A} (a : list A) (i : Z) : result A :=
  if (i <? 0)%Z then Err OutOfBounds else rd a (Z.to_nat i).

(** [Tensor<double>(n)]: [n] zeros. *)
Definition zeros (n : Z) : list float := replicate (Z.to_nat n) 0.

(** A buffer of [n] doubles after libxc has written [out] to it: the
    first [n] values of [out]. *)
Definition written (n : Z) (out : list float) : list float :=
  take (Z.to_nat n) (out ++ zeros n).

(** [for (long j=0; j<np; j++) res[j] += term(j);] *)
Definition add_to (res : list float) (np : Z) (term : nat -> result float)
  : result (list float) :=
  for_each (fun j => do r <- rd res j; do e <- term j; Ok (r + e)) (upto np).

(** A loop over [funcs] that carries a state and may fail. *)
Fixpoint for_funcs {S} (body : S -> xc_func_type * float -> result S)
    (fs : list (xc_func_type * float)) (s : S) : result S :=
  match fs with
  | [] => Ok s
  | f :: fs' => do s' <- body s f; for_funcs body fs' s'
  end.

(** [for (long j=0; j<np; j++) if (isnan_x(res[j])) MADNESS_EXCEPTION(msg,1);] *)
Definition check_nan (res : list float) (np : Z) (msg : string) : result unit :=
  do _ <- for_each (fun j =>
            do r <- rd res j;
            if isnan_x r then Err (MadnessException msg) else Ok tt) (upto np);
  Ok tt.

(** Tensor operations of madness/tensor/tensor.h (not part of the
    sources), on conforming operands; otherwise the library throws. *)
Definition conform (a b : list float) : bool :=
  (length a =? length b)%nat.

Definition emul (a b : list float) : result (list float) :=
  if conform a b then Ok (zip_with PrimFloat.mul a b)
  else Err (TensorException "emul: tensors do not conform").

Definition tensor_add (a b : list float) : result (list float) :=
  if conform a b then Ok (zip_with PrimFloat.add a b)
  else Err (TensorException "+: tensors do not conform").

(** [s*a] and [a*s] *)
Definition scale_l (s : float) (a : list float) : list float :=
  (fun x => s * x) <$> a.
Definition scale_r (a : list float) (s : float) : list float :=
  (fun x => x * s) <$> a.

(** The four tensors that [make_libxc_args] fills through its reference
    parameters; one it does not assign stays empty. *)
Record libxc_args : Type := {
  rho : list float;
  sigma : list float;
  rho_pt : list float;
  sigma_pt : list float
}.

(** [p = t.ptr(); if (p==NULL) { dummy=Tensor<double>(np); p=dummy.ptr(); }]:
    an empty tensor has no storage. *)
Definition or_dummy (np : Z) (a : list float) : list float :=
  match a with
  | [] => zeros np
  | _ => a
  end.

Section Members.
Context {hdr : Header} {lib : Libxc}.
Variable this : XCfunctional.

(** [is_lda() const { return nderiv == 0; }] and its siblings *)
Definition is_lda : bool := (nderiv this =? 0)%Z.
Definition is_gga : bool := (nderiv this =? 1)%Z.
Definition is_meta : bool := (nderiv this =? 2)%Z.

(** [is_dft() const { return (funcs.size()>0); }] *)
Definition is_dft : bool := (0 <? length (funcs this))%nat.

Definition has_fxc : bool := false.
Definition has_kxc : bool := false.

(** The constant [1.e-14] of [make_libxc_args]. *)
Definition sigma_floor : float := 0x1.6849b86a12b9bp-47.

Definition make_libxc_args (xc_args : list (list float)) (need_response : bool)
  : result libxc_args :=
  (* const int np = xc_args[0].size(); *)
  do t0 <- rd xc_args 0;
  let np := Z.of_nat (length t0) in
  if negb (spin_polarized this) then
    if is_lda then
      do rhoa <- rd xc_args enum_rhoa;
      do dens <- for_each (fun i =>
                   do a <- rd rhoa i; Ok (munge this (2 * a))) (upto np);
      if need_response then
        do rho_pt1 <- rd xc_args enum_rho_pt;
        do dens_pt <- for_each (fun i =>
                        do p <- rd rho_pt1 i;
                        do a <- rd rhoa i;
                        Ok (binary_munge this p a)) (upto np);
        Ok {| rho := dens; sigma := []; rho_pt := dens_pt; sigma_pt := [] |}
      else
        Ok {| rho := dens; sigma := []; rho_pt := []; sigma_pt := [] |}
    else if is_gga then
      do rhoa <- rd xc_args enum_rhoa;
      do chiaa <- rd xc_args enum_chi_aa;
      do ds <- for_each (fun i =>
                 do a <- rd rhoa i;
                 let d := munge this (2 * a) in
                 do c <- rd chiaa i;
                 Ok (d, std_max sigma_floor (d * d * c))) (upto np);
      let dens := ds.*1 in
      let sig := ds.*2 in
      if need_response then
        do rho_pt1 <- rd xc_args enum_rho_pt;
        do sig_pt1 <- rd xc_args enum_sigma_pta_div_rho;
        do ps <- for_each (fun i =>
                   do p <- rd rho_pt1 i;
                   do a <- rd rhoa i;
                   do d <- rd dens i;
                   do s <- rd sig_pt1 i;
                   Ok (binary_munge this p a, d * s)) (upto np);
        Ok {| rho := dens; sigma := sig; rho_pt := ps.*1; sigma_pt := ps.*2 |}
      else
        Ok {| rho := dens; sigma := sig; rho_pt := []; sigma_pt := [] |}
    else
      Err (MadnessException "only LDA and GGA available in xcfunctional")
  else
    if is_lda then
      do rhoa <- rd xc_args enum_rhoa;
      do rhob0 <- rd xc_args enum_rhob;
      let rhob := or_dummy np rhob0 in
      do ds <- for_each (fun i =>
                 do a <- rd rhoa i;
                 do b <- rd rhob i;
                 Ok [munge this a; munge this b]) (upto np);
      if need_response then
        Err (MadnessException "no spin polarized DFT response in xcfunctional")
      else
        Ok {| rho := concat ds; sigma := []; rho_pt := []; sigma_pt := [] |}
    else if is_gga then
      do rhoa <- rd xc_args enum_rhoa;
      do rhob0 <- rd xc_args enum_rhob;
      do chiaa <- rd xc_args enum_chi_aa;
      do chiab0 <- rd xc_args enum_chi_ab;
      do chibb0 <- rd xc_args enum_chi_bb;
      let rhob := or_dummy np rhob0 in
      let chiab := or_dummy np chiab0 in
      let chibb := or_dummy np chibb0 in
      do ds <- for_each (fun i =>
                 do a <- rd rhoa i;
                 do b <- rd rhob i;
                 let ra := munge this a in
                 let rb := munge this b in
                 do caa <- rd chiaa i;
                 do cab <- rd chiab i;
                 do cbb <- rd chibb i;
                 Ok ([ra; rb],
                     [std_max sigma_floor (ra * ra * caa);
                      std_max sigma_floor (ra * rb * cab);
                      std_max sigma_floor (rb * rb * cbb)])) (upto np);
      if need_response then
        Err (MadnessException "no spin polarized DFT response in xcfunctional")
      else
        Ok {| rho := concat ds.*1; sigma := concat ds.*2;
              rho_pt := []; sigma_pt := [] |}
    else
      Err (MadnessException "only LDA and GGA available in xcfunctional").

(** [madness::Tensor<double> XCfunctional::exc(t) const] *)
Definition exc (t : list (list float)) : result (list float) :=
  do args <- make_libxc_args t false;
  (* const int np = t[0].size(); *)
  do t0 <- rd t 0;
  let np := Z.of_nat (length t0) in
  let dens := rho args in
  let sig := sigma args in
  (* Tensor<double> result(3L, t[0].dims()); res[j] = 0.0 *)
  let result0 := zeros np in
  do result1 <- for_funcs (fun res func =>
      do work <-
        match family func.1 with
        | XC_FAMILY_LDA => Ok (written np (xc_lda_exc func.1 np dens))
        | XC_FAMILY_GGA => Ok (written np (xc_gga_exc func.1 np dens sig))
        | XC_FAMILY_HYB_GGA => Ok (written np (xc_gga_exc func.1 np dens sig))
        | _ => Err (Thrown "HOW DID WE GET HERE?")
        end;
      if spin_polarized this then
        add_to res np (fun j =>
          do w <- rd work j;
          do d1 <- rd dens (2 * j + 1);
          do d0 <- rd dens (2 * j);
          Ok (w * (d1 + d0) * func.2))
      else
        add_to res np (fun j =>
          do w <- rd work j;
          do d <- rd dens j;
          Ok (w * d * func.2))) (funcs this) result0;
  Ok result1.

(** [madness::Tensor<double> XCfunctional::vxc(t, ispin, xc_contrib) const] *)
Definition vxc (t : list (list float)) (ispin : Z) (xc_contrib : xc_contribution)
  : result (list float) :=
  do args <- make_libxc_args t false;
  do t0 <- rd t 0;
  let np := Z.of_nat (length t0) in
  let nvrho := if spin_polarized this then 2%Z else 1%Z in
  let nvsig := if spin_polarized this then 3%Z else 1%Z in
  let dens := rho args in
  let result0 := zeros np in
  do result1 <- for_funcs (fun res func =>
      match family func.1 with
      | XC_FAMILY_LDA =>
          let vr := written (nvrho * np) (xc_lda_vxc func.1 np dens) in
          add_to res np (fun j =>
            do v <- rdZ vr (nvrho * Z.of_nat j + ispin);
            Ok (v * func.2))
      | XC_FAMILY_HYB_GGA | XC_FAMILY_GGA =>
          let sig := sigma args in
          let out := xc_gga_vxc func.1 np dens sig in
          let vr := written (nvrho * np) out.1 in
          let vs := written (nvsig * np) out.2 in
          if spin_polarized this then
            match xc_contrib with
            | potential_rho =>
                add_to res np (fun j =>
                  do v <- rdZ vr (nvrho * Z.of_nat j + ispin);
                  Ok (v * func.2))
            | potential_same_spin =>
                add_to res np (fun j =>
                  do v <- rdZ vs (nvsig * Z.of_nat j + 2 * ispin);
                  do d <- rdZ dens (nvrho * Z.of_nat j + ispin);
                  Ok (v * func.2 * d))
            | potential_mixed_spin =>
                add_to res np (fun j =>
                  do v <- rdZ vs (nvsig * Z.of_nat j + 1);
                  do d <- rdZ dens (nvrho * Z.of_nat j + (1 - ispin));
                  Ok (v * func.2 * d))
            | _ => Err (Thrown "ouch")
            end
          else
            match xc_contrib with
            | potential_rho =>
                add_to res np (fun j =>
                  do v <- rd vr j;
                  Ok (v * func.2))
            | potential_same_spin =>
                add_to res np (fun j =>
                  do v <- rd vs j;
                  do d <- rd dens j;
                  Ok (v * func.2 * d))
            | _ => Err (Thrown "ouch")
            end
      | _ => Err (MadnessException "unknown XC_FAMILY xcfunctional::vxc")
      end) (funcs this) result0;
  do _ <- check_nan result1 np "NaN in xcfunctional::vxc";
  Ok result1.

(** The intermediates of [fxc_apply] that live across the loop over
    [funcs], with the result tensor. *)
Record fxc_state : Type := {
  v2rho2 : list float;
  v2rhosigma : list float;
  v2sigma2 : list float;
  vrho : list float;
  vsigma : list float;
  result_acc : list float
}.

(** One turn of the loop over [funcs] in [fxc_apply], first part: the
    [switch] on the family, where libxc writes the partial derivatives. *)
Definition fxc_kernels (args : libxc_args) (np nspin nspin2 nspin3 : Z)
    (xc_contrib : xc_contribution) (st : fxc_state)
    (func : xc_func_type * float) : result fxc_state :=
  let dens := rho args in
  let sig := sigma args in
  match family func.1 with
  | XC_FAMILY_LDA =>
      Ok {| v2rho2 := written (nspin2 * np) (xc_lda_fxc func.1 np dens);
            v2rhosigma := v2rhosigma st; v2sigma2 := v2sigma2 st;
            vrho := vrho st; vsigma := vsigma st;
            result_acc := result_acc st |}
  | XC_FAMILY_HYB_GGA | XC_FAMILY_GGA =>
      match xc_contrib with
      | kernel_second_semilocal | kernel_second_local =>
          let out := xc_gga_fxc func.1 np dens sig in
          Ok {| v2rho2 := written (nspin2 * np) out.1.1;
                v2rhosigma := written (nspin3 * np) out.1.2;
                v2sigma2 := written (nspin3 * np) out.2;
                vrho := vrho st; vsigma := vsigma st;
                result_acc := result_acc st |}
      | kernel_first_semilocal =>
          let out := xc_gga_vxc func.1 np dens sig in
          Ok {| v2rho2 := v2rho2 st;
                v2rhosigma := v2rhosigma st; v2sigma2 := v2sigma2 st;
                vrho := written (nspin * np) out.1;
                vsigma := written (nspin2 * np) out.2;
                result_acc := result_acc st |}
      | _ => Ok st
      end
  | _ => Err (MadnessException "unknown XC_FAMILY xcfunctional::fxc")
  end.

(** Second part: [result1], the kernel multiplied with the densities.
    [emul] multiplies its object in place, and
    [result1 = v2rho2.emul(rho_pt)] leaves [result1] sharing the storage of
    [v2rho2], so that [result1 += ...] changes [v2rho2] as well. *)
Definition fxc_result1 (args : libxc_args) (xc_contrib : xc_contribution)
    (st1 : fxc_state) : result (fxc_state * list float) :=
  match xc_contrib with
  | kernel_second_local =>
      (* result1=v2rho2.emul(rho_pt); *)
      do a <- emul (v2rho2 st1) (rho_pt args);
      if is_gga then
        (* result1+=2.0*v2rhosigma.emul(sigma_pt); *)
        do b <- emul (v2rhosigma st1) (sigma_pt args);
        do r <- tensor_add a (scale_l 2 b);
        Ok ({| v2rho2 := r; v2rhosigma := b; v2sigma2 := v2sigma2 st1;
               vrho := vrho st1; vsigma := vsigma st1;
               result_acc := result_acc st1 |}, r)
      else
        Ok ({| v2rho2 := a; v2rhosigma := v2rhosigma st1;
               v2sigma2 := v2sigma2 st1;
               vrho := vrho st1; vsigma := vsigma st1;
               result_acc := result_acc st1 |}, a)
  | kernel_second_semilocal =>
      (* result1=2.0*v2rhosigma.emul(rho_pt) + 4.0*v2sigma2.emul(sigma_pt); *)
      do a <- emul (v2rhosigma st1) (rho_pt args);
      do b <- emul (v2sigma2 st1) (sigma_pt args);
      do r <- tensor_add (scale_l 2 a) (scale_l 4 b);
      Ok ({| v2rho2 := v2rho2 st1; v2rhosigma := a; v2sigma2 := b;
             vrho := vrho st1; vsigma := vsigma st1;
             result_acc := result_acc st1 |}, r)
  | kernel_first_semilocal =>
      (* result1=2.0*vsigma; *)
      Ok (st1, scale_l 2 (vsigma st1))
  | _ => Err (MadnessException "confused xc_contrib in fxc_apply")
  end.

(** The whole turn; its last statement is
    [result+=result1*funcs[i].second;] *)
Definition fxc_step (args : libxc_args) (np nspin nspin2 nspin3 : Z)
    (xc_contrib : xc_contribution) (st : fxc_state)
    (func : xc_func_type * float) : result fxc_state :=
  do st1 <- fxc_kernels args np nspin nspin2 nspin3 xc_contrib st func;
  do st2r <- fxc_result1 args xc_contrib st1;
  do acc <- tensor_add (result_acc st2r.1) (scale_r st2r.2 func.2);
  Ok {| v2rho2 := v2rho2 st2r.1; v2rhosigma := v2rhosigma st2r.1;
        v2sigma2 := v2sigma2 st2r.1;
        vrho := vrho st2r.1; vsigma := vsigma st2r.1;
        result_acc := acc |}.

(** [fxc_apply] after its two assertions. *)
Definition fxc_apply_body (t : list (list float)) (ispin : Z)
    (xc_contrib : xc_contribution) : result (list float) :=
  do args <- make_libxc_args t true;
  do t0 <- rd t 0;
  let np := Z.of_nat (length t0) in
  let nspin := if spin_polarized this then 2%Z else 1%Z in
  let nspin2 := (nspin * (nspin + 1) / 2)%Z in
  let nspin3 := (nspin2 * (nspin2 + 1) / 2)%Z in
  let st0 := {| v2rho2 := zeros (nspin2 * np);
                v2rhosigma := zeros (nspin3 * np);
                v2sigma2 := zeros (nspin3 * np);
                vrho := zeros (nspin * np);
                vsigma := zeros (nspin2 * np);
                result_acc := zeros np |} in
  do st <- for_funcs (fxc_step args np nspin nspin2 nspin3 xc_contrib)
             (funcs this) st0;
  do _ <- check_nan (result_acc st) np "NaN in xcfunctional::fxc_apply";
  Ok (result_acc st).

(** [Tensor<double> XCfunctional::fxc_apply(t, ispin, xc_contrib) const]:
<<
    MADNESS_ASSERT(!spin_polarized);    // for now
    MADNESS_ASSERT(ispin==0);           // for now
>>
    and then the computation. *)
Definition fxc_apply (t : list (list float)) (ispin : Z)
    (xc_contrib : xc_contribution) : result (list float) :=
  if negb (negb (spin_polarized this)) then
    Err (AssertionFailed "!spin_polarized")
  else if negb (ispin =? 0)%Z then
    Err (AssertionFailed "ispin==0")
  else
    fxc_apply_body t ispin xc_contrib.

End Members.

(** ** Instances to run the members on *)

(** A layout of [xc_args] and the screening of small densities: a
    density at or below [rhotol] becomes [rhomin]; a perturbed density is
    screened by its reference density. *)
Definition example_header : Header := {|
  enum_rhoa := 0;
  enum_rhob := 1;
  enum_chi_aa := 2;
  enum_chi_ab := 3;
  enum_chi_bb := 4;
  enum_rho_pt := 5;
  enum_sigma_pta_div_rho := 6;
  munge := fun xc r => if r <=? rhotol xc then rhomin xc else r;
  binary_munge := fun xc r refrho => if refrho <? rhotol xc then rhomin xc else r
|}.

(** A functional library all of whose output arrays hold the value [c]. *)
Definition constant_libxc (c : float) : Libxc := {|
  xc_lda_exc := fun _ np _ => replicate (Z.to_nat np) c;
  xc_gga_exc := fun _ np _ _ => replicate (Z.to_nat np) c;
  xc_lda_vxc := fun _ np _ => replicate (Z.to_nat np) c;
  xc_gga_vxc := fun _ np _ _ => (replicate (Z.to_nat np) c, replicate (Z.to_nat np) c);
  xc_lda_fxc := fun _ np _ => replicate (Z.to_nat np) c;
  xc_gga_fxc := fun _ np _ _ =>
    (replicate (Z.to_nat np) c, replicate (Z.to_nat np) c, replicate (Z.to_nat np) c)
|}.

(** Slater exchange ([LDA_X], number 1 of libxc) with weight 1.0, not
    spin-polarized: the state after [initialize("LDA_X", false, ...)]. *)
Definition lda_x : XCfunctional := {|
  rhotol := 0x1.ad7f29abcaf48p-24;
  rhomin := 0;
  ggatol := 0x1.a36e2eb1c432dp-14;
  nderiv := 0;
  spin_polarized := false;
  hf_coeff := 0;
  funcs := [({| number := 1; family := XC_FAMILY_LDA |}, 1)]
|}.

(** The same functional, spin-polarized. *)
Definition lda_x_polarized : XCfunctional := {|
  rhotol := 0x1.ad7f29abcaf48p-24;
  rhomin := 0;
  ggatol := 0x1.a36e2eb1c432dp-14;
  nderiv := 0;
  spin_polarized := true;
  hf_coeff := 0;
  funcs := [({| number := 1; family := XC_FAMILY_LDA |}, 1)]
|}.

(** The intermediates of a box with one grid point whose alpha density
    is [d]: the density at [enum_rhoa], the perturbed density 1.0 at
    [enum_rho_pt], the others empty. *)
Definition one_point (d : float) : list (list float) :=
  [[d]; []; []; []; []; [1]; []].

(** Becke exchange with Perdew correlation ([GGA_X_B88], [GGA_C_P86]),
    not spin-polarized: the state after [initialize("BP86", false, ...)]. *)
Definition bp86 : XCfunctional := {|
  rhotol := 0x1.ad7f29abcaf48p-24;
  rhomin := 0;
  ggatol := 0x1.a36e2eb1c432dp-14;
  nderiv := 1;
  spin_polarized := false;
  hf_coeff := 0;
  funcs := [({| number := 106; family := XC_FAMILY_GGA |}, 1);
            ({| number := 132; family := XC_FAMILY_GGA |}, 1)]
|}.

(** A meta-GGA functional, as [initialize] leaves it: [nderiv] is 2. *)
Definition meta_gga : XCfunctional := {|
  rhotol := 0x1.ad7f29abcaf48p-24;
  rhomin := 0;
  ggatol := 0x1.a36e2eb1c432dp-14;
  nderiv := 2;
  spin_polarized := false;
  hf_coeff := 0;
  funcs := [({| number := 202; family := XC_FAMILY_MGGA |}, 1)]
|}.

(** Pure Hartree-Fock: the state after [initialize("HF", false, ...)],
    without any functional of libxc. *)
Definition hf_only : XCfunctional := {|
  rhotol := 0x1.ad7f29abcaf48p-24;
  rhomin := 0;
  ggatol := 0x1.a36e2eb1c432dp-14;
  nderiv := 0;
  spin_polarized := false;
  hf_coeff := 1;
  funcs := []
|}.

(** The intermediates of a box with one grid point for a GGA: density
    [d], reduced gradient [chi], perturbed density and gradient 1.0. *)
Definition gga_point (d chi : float) : list (list float) :=
  [[d]; []; [chi]; []; []; [1]; [1]].

(** ** The order of derivatives *)

(** The last loop of [initialize], which starts from [nderiv = 0]:
<<
    for (unsigned int i=0; i<funcs.size(); i++) {
        if (funcs[i].first->info->family == XC_FAMILY_GGA) nderiv = std::max(nderiv,1);
        if (funcs[i].first->info->family == XC_FAMILY_HYB_GGA) nderiv = std::max(nderiv,1);
        if (funcs[i].first->info->family == XC_FAMILY_MGGA)nderiv = std::max(nderiv,2);
    }
>> *)
Definition is_family (f g : xc_family) : bool :=
  match f, g with
  | XC_FAMILY_LDA, XC_FAMILY_LDA
  | XC_FAMILY_GGA, XC_FAMILY_GGA
  | XC_FAMILY_HYB_GGA, XC_FAMILY_HYB_GGA
  | XC_FAMILY_MGGA, XC_FAMILY_MGGA => true
  | XC_FAMILY_OTHER c, XC_FAMILY_OTHER d => (c =? d)%Z
  | _, _ => false
  end.

Definition initialize_nderiv (fs : list (xc_func_type * float)) : Z :=
  fold_left (fun nderiv (f : xc_func_type * float) =>
    let n1 := if is_family (family f.1) XC_FAMILY_GGA then Z.max nderiv 1 else nderiv in
    let n2 := if is_family (family f.1) XC_FAMILY_HYB_GGA then Z.max n1 1 else n1 in
    if is_family (family f.1) XC_FAMILY_MGGA then Z.max n2 2 else n2) fs 0%Z.

(** The families that the [switch] of [exc] has a case for. *)
Definition has_exc_case (f : xc_func_type * float) : bool :=
  match family f.1 with
  | XC_FAMILY_LDA | XC_FAMILY_GGA | XC_FAMILY_HYB_GGA => true
  | _ => false
  end.

End XCfunctional.

(* ===================================================================== *)
(** * linalg/kain.cc: the optimizers *)
(* ===================================================================== *)

Module Optimizer.

Local Open Scope float_scope.

(** [struct OptimizationTargetInterface]: its virtual member functions.
    Any of them may throw. *)
Record OptimizationTargetInterface : Type := {
  provides_gradient : bool;
  value : list float -> result float;
  gradient : list float -> result (list float);
  value_and_gradient : list float -> result (float * list float)
}.

(** The body that the interface gives to [gradient]:
    [throw "not implemented";] *)
Definition gradient_not_implemented (x : list float) : result (list float) :=
  Err (Thrown "not implemented").

(** The body that the interface gives to [value_and_gradient]:
<<
    value = this->value(x);
    gradient = this->gradient(x);
>> *)
Definition value_and_gradient_default
    (value : list float -> result float)
    (gradient : list float -> result (list float))
    (x : list float) : result (float * list float) :=
  do v <- value x;
  do g <- gradient x;
  Ok (v, g).

(** Tensor operations of tensor/tensor.h (not part of the sources).
    [x.gaxpy(alpha, g, beta)] puts [alpha*x + beta*g] in [x], element by
    element, for conforming tensors; [normf] is the Frobenius norm. *)
Definition gaxpy (alpha : float) (x g : list float) (beta : float)
  : result (list float) :=
  if (length x =? length g)%nat
  then Ok (zip_with (fun a b => alpha * a + beta * b) x g)
  else Err (TensorException "gaxpy: tensors do not conform").

Definition sumsq (x : list float) : float :=
  fold_left (fun s a => s + a * a) x 0.

Definition normf (x : list float) : float := PrimFloat.sqrt (sumsq x).

(** [class SteepestDescent]; the member [f] has no value before the first
    call of [optimize]. *)
Record SteepestDescent : Type := {
  target : OptimizationTargetInterface;
  tol : float;
  value_precision : float;
  gradient_precision : float;
  f : option float;
  gnorm : float
}.

(** The constructor:
<<
    : target(target), tol(tol), value_precision(value_precision),
      gradient_precision(gradient_precision), gnorm(tol*1e16)
    {
        if (!target->provides_gradient()) throw "Steepest descent requires the gradient";
    }
>> *)
Definition SteepestDescent_new (target : OptimizationTargetInterface)
    (tol value_precision gradient_precision : float) : result SteepestDescent :=
  if negb (provides_gradient target)
  then Err (Thrown "Steepest descent requires the gradient")
  else Ok {| target := target; tol := tol;
             value_precision := value_precision;
             gradient_precision := gradient_precision;
             f := None; gnorm := tol * 1e16 |}.

(** [bool converged() const {return gnorm < tol;}] *)
Definition converged (sd : SteepestDescent) : bool := gnorm sd <? tol sd.

(** [double gradient_norm() const {return gnorm;}] *)
Definition gradient_norm (sd : SteepestDescent) : float := gnorm sd.

Definition with_progress (sd : SteepestDescent) (fnew gn : float) : SteepestDescent :=
  {| target := target sd; tol := tol sd;
     value_precision := value_precision sd;
     gradient_precision := gradient_precision sd;
     f := Some fnew; gnorm := gn |}.

(** The inner loop of [optimize]:
<<
    while (1) {
        Tensor<double> gnew;
        x.gaxpy(1.0, g, -step);
        target->value_and_gradient(x,fnew,gnew);
        if (fnew < f) {
            f = fnew;
            g = gnew;
            break;
        }
        x.gaxpy(1.0, g, step);
        step *= 0.5;
    }
>>
    It returns [x], [g], [f] and [step] as the loop leaves them.  [fuel]
    bounds the number of turns; [None] says that the loop is still running
    after that many. *)
Fixpoint search (fuel : nat) (tg : OptimizationTargetInterface)
    (x g : list float) (f step : float)
  : option (result (list float * list float * float * float)) :=
  match fuel with
  | O => None
  | S fuel' =>
      match gaxpy 1 x g (- step) with
      | Err e => Some (Err e)
      | Ok x1 =>
          match value_and_gradient tg x1 with
          | Err e => Some (Err e)
          | Ok (fnew, gnew) =>
              if fnew <? f then Some (Ok (x1, gnew, fnew, step))
              else
                match gaxpy 1 x1 g step with
                | Err e => Some (Err e)
                | Ok x2 => search fuel' tg x2 g f (step * 0.5)
                end
          end
      end
  end.

(** The outer loop of [optimize], with [n] turns left:
<<
    for (int i=0; i<100; i++) {
        while (1) { ... }
        Tensor<double> g = target->gradient(x);
        gnorm = g.normf();
        if (converged()) break;
    }
    return converged();
>>
    The [g] declared in the loop hides the one of the search, which keeps
    the gradient that the search has stored. *)
Fixpoint iterate (fuel n : nat) (sd : SteepestDescent)
    (x g : list float) (f step : float)
  : option (result (bool * SteepestDescent * list float)) :=
  match n with
  | O => Some (Ok (converged sd, sd, x))
  | S n' =>
      match search fuel (target sd) x g f step with
      | None => None
      | Some (Err e) => Some (Err e)
      | Some (Ok (x', g', f', step')) =>
          match gradient (target sd) x' with
          | Err e => Some (Err e)
          | Ok g2 =>
              let sd' := with_progress sd f' (normf g2) in
              if converged sd' then Some (Ok (converged sd', sd', x'))
              else iterate fuel n' sd' x' g' f' step'
          end
      end
  end.

(** [bool optimize(Tensor<double>& x)]:
<<
    double step = 10.0;
    double  fnew;
    Tensor<double> g;
    target->value_and_gradient(x,f,g);
    gnorm = g.normf();
    for ...
>>
    The result is the value returned, the optimizer and [x] after the
    call. *)
Definition optimize (fuel : nat) (sd : SteepestDescent) (x : list float)
  : option (result (bool * SteepestDescent * list float)) :=
  match value_and_gradient (target sd) x with
  | Err e => Some (Err e)
  | Ok (f0, g0) => iterate fuel 100 (with_progress sd f0 (normf g0)) x g0 f0 10
  end.

(** [struct Test]: [value] is [0.5*3.0*x.sumsq()], [gradient] is [x*3.0];
    the other members are those of the interface. *)
Definition Test_value (x : list float) : result float := Ok (0.5 * 3 * sumsq x).
Definition Test_gradient (x : list float) : result (list float) :=
  Ok ((fun a => a * 3) <$> x).
Definition Test : OptimizationTargetInterface := {|
  provides_gradient := true;
  value := Test_value;
  gradient := Test_gradient;
  value_and_gradient := value_and_gradient_default Test_value Test_gradient
|}.

(** The optimizer [SteepestDescent(new Test)] with the default
    tolerances [1e-6], [1e-12] and [1e-12] (their nearest doubles). *)
Definition descent_on_Test : SteepestDescent := {|
  target := Test;
  tol := 0x1.0c6f7a0b5ed8dp-20;
  value_precision := 0x1.19799812dea11p-40;
  gradient_precision := 0x1.19799812dea11p-40;
  f := None;
  gnorm := 0x1.0c6f7a0b5ed8dp-20 * 1e16
|}.

(** A double, seen through its specification, that is not below zero:
    a zero, a positive number, plus infinity, or NaN. *)
Definition not_negative (x : spec_float) : Prop :=
  match x with
  | S754_zero _ | S754_nan => True
  | S754_infinity s | S754_finite s _ _ => s = false
  end.

(** [SteepestDescent(new Test, 100.0)]: a tolerance that the first
    accepted step meets. *)
Definition coarse_descent_on_Test : SteepestDescent := {|
  target := Test;
  tol := 100;
  value_precision := 0x1.19799812dea11p-40;
  gradient_precision := 0x1.19799812dea11p-40;
  f := None;
  gnorm := 100 * 1e16
|}.

End Optimizer.
(* ===================================================================== *)
(** * Properties of [KAIN] *)
(* ===================================================================== *)

Lemma for_each_length {A B} (f : A -> result B) l bs :
  for_each f l = Ok bs -> length bs = length l.
Proof.
  revert bs. induction l as [|a l IH]; simpl; intros bs Hbs.
  - by inversion Hbs.
  - destruct (f a) as [b|]; simpl in Hbs; [|done].
    destruct (for_each f l) as [bs'|]; simpl in Hbs; [|done].
    inversion Hbs; subst. simpl. f_equal. by apply IH.
Qed.

Lemma for_each_total {A B} (f : A -> result B) l :
  Forall (fun a => exists b, f a = Ok b) l ->
  exists bs, for_each f l = Ok bs.
Proof.
  induction 1 as [|a l [b Hb] _ [bs Hbs]]; simpl.
  - by eexists.
  - rewrite Hb, Hbs. simpl. by eexists.
Qed.

Section KAIN_facts.
Context {T : Type} `{Kain.Scalar T}.

Lemma accumulate_seq (x : list T) pre post s :
  x = pre ++ post ->
  Kain.accumulate x (seq (length pre) (length post)) s
  = Ok (fold_left Kain.add post s).
Proof.
  revert pre s. induction post as [|y post IH]; intros pre s ->; simpl; [done|].
  unfold Kain.at1. rewrite lookup_app_r, Nat.sub_diag by lia. simpl.
  specialize (IH (pre ++ [y]) (Kain.add s y)).
  rewrite length_app in IH. simpl in IH.
  replace (length pre + 1)%nat with (S (length pre)) in IH by lia.
  apply IH. by rewrite <- app_assoc.
Qed.

Lemma accumulate_all (x : list T) m :
  Z.of_nat (length x) = m ->
  Kain.accumulate x (upto m) Kain.zero = Ok (fold_left Kain.add x Kain.zero).
Proof.
  intros <-. unfold upto. rewrite Nat2Z.id.
  by apply (accumulate_seq x [] x).
Qed.

Lemma at2_square (Q : Kain.matrix T) n i j :
  Kain.square n Q -> (i < n)%nat -> (j < n)%nat ->
  exists q, Kain.at2 Q i j = Ok q.
Proof.
  intros [Hlen Hrows] Hi Hj. unfold Kain.at2.
  destruct (lookup_lt_is_Some_2 Q i) as [row Hrow]; [lia|].
  rewrite Hrow. simpl.
  assert (length row = n) as Hr.
  { by apply (Forall_lookup_1 _ _ _ _ Hrows Hrow). }
  destruct (lookup_lt_is_Some_2 row j) as [q Hq]; [lia|].
  rewrite Hq. by eexists.
Qed.

Lemma system_square (Q : Kain.matrix T) n :
  Kain.square (S n) Q ->
  exists A b, Kain.system Q (Z.of_nat n) = Ok (A, b) /\ length b = n.
Proof.
  intros HQ. unfold Kain.system, upto. rewrite Nat2Z.id.
  set (row := fun i : nat => _).
  destruct (for_each_total row (seq 0 n)) as [rows Hrows].
  { apply Forall_forall. intros i Hi%elem_of_seq. unfold row.
    unfold Kain.b_entry.
    destruct (at2_square Q (S n) n n HQ) as [qmm ->]; [lia..|].
    destruct (at2_square Q (S n) i n HQ) as [qim Hqim]; [lia..|].
    rewrite Hqim. simpl.
    destruct (for_each_total (Kain.A_entry Q n i) (seq 0 n)) as [Ai ->].
    { apply Forall_forall. intros j Hj%elem_of_seq. unfold Kain.A_entry.
      destruct (at2_square Q (S n) i j HQ) as [? ->]; [lia..|].
      destruct (at2_square Q (S n) n j HQ) as [? ->]; [lia..|].
      destruct (at2_square Q (S n) n n HQ) as [? ->]; [lia..|].
      rewrite Hqim. simpl. by eexists. }
    simpl. by eexists. }
  rewrite Hrows. simpl. do 2 eexists. split; [done|].
  rewrite length_fmap. apply for_each_length in Hrows.
  by rewrite Hrows, length_seq.
Qed.

End KAIN_facts.

(** Two doubles are different when [==] tells them apart and the first
    is a number ([NaN == NaN] is false although it is one value). *)
Lemma float_neq (x y : float) :
  (x =? x)%float = true -> (x =? y)%float = false -> x <> y.
Proof. intros Hxx Hxy E. rewrite <- E in Hxy. congruence. Qed.

(** C8, as stated, fails in double precision.  For the matrix
    [Q_small_pivot] the system is [2^-57 x = 1]; its solution [2^57] is so
    large that [1.0 - sumC] rounds to [-2^57], and the entries of the
    returned vector sum to [0], not to [1]. *)
Lemma KAIN_double_sum_not_one :
  Kain.square 2 Kain.Q_small_pivot /\
  Kain.KAIN Kain.gelss_1x1 Kain.Q_small_pivot = Ok [0x1p57; -0x1p57]%float /\
  Kain.total [0x1p57; -0x1p57]%float = 0%float /\
  Kain.total [0x1p57; -0x1p57]%float <> Kain.one.
Proof.
  split; [|split; [|split]].
  - split; [reflexivity|]. by repeat constructor.
  - vm_compute. reflexivity.
  - vm_compute. reflexivity.
  - apply float_neq; vm_compute; reflexivity.
Qed.

(** C8 (amended).  For a square matrix [Q] of dimension [n >= 1], [KAIN]
    returns a vector [c] of length [n].  For [n = 1] it is [[1.0]],
    whatever [gelss] is, and its entries add up to [0.0 + 1.0].  For
    [n > 1], when [gelss] answers on the system of [Q] with a solution [x]
    of the size of the right-hand side, the first [n-1] entries of [c] are
    [x] and the last one is [1.0 - sumC], where [sumC] is the sum of [x]
    accumulated from [0.0] in index order in the arithmetic of [T]; the
    entries of [c], added in the same way, give [sumC + (1.0 - sumC)].
    This is [1.0] whenever the arithmetic of [T] is exact. *)
Theorem KAIN_coefficients {T : Type} `{Kain.Scalar T}
    (gelss : list (list T) -> list T -> float -> result (list T))
    (Q : list (list T)) (n : nat) :
  (1 <= n)%nat ->
  Kain.square n Q ->
  ((1 < n)%nat ->
   forall A b, Kain.system Q (Z.of_nat n - 1) = Ok (A, b) ->
     exists x, gelss A b Kain.rcond = Ok x /\ length x = length b) ->
  exists c,
    Kain.KAIN gelss Q = Ok c /\
    length c = n /\
    (n = 1%nat -> c = [Kain.one] /\ Kain.total c = Kain.add Kain.zero Kain.one) /\
    ((1 < n)%nat ->
       exists A b x,
         Kain.system Q (Z.of_nat n - 1) = Ok (A, b) /\
         gelss A b Kain.rcond = Ok x /\
         length x = (n - 1)%nat /\
         c = x ++ [Kain.sub Kain.one (fold_left Kain.add x Kain.zero)] /\
         Kain.total c
         = Kain.add (fold_left Kain.add x Kain.zero)
             (Kain.sub Kain.one (fold_left Kain.add x Kain.zero))) /\
    (Kain.exact_complement T -> Kain.total c = Kain.one).
Proof.
  intros Hn HQ Hgelss. unfold Kain.KAIN, Kain.dim0.
  destruct HQ as [Hlen Hrows]. rewrite Hlen.
  destruct (Z.eqb_spec (Z.of_nat n) 1) as [E1|N1].
  - assert (n = 1%nat) as -> by lia.
    exists [Kain.one]. split; [done|]. split; [done|].
    split; [done|]. split; [lia|].
    intros [H01 _]. exact H01.
  - destruct n as [|m]; [lia|]. destruct m as [|m]; [lia|].
    assert (1 < S (S m))%nat as Hbig by lia. specialize (Hgelss Hbig).
    replace (Z.of_nat (S (S m)) - 1) with (Z.of_nat (S m)) in * by lia.
    destruct (Z.ltb_spec (Z.of_nat (S m)) 0) as [?|_]; [lia|].
    destruct (system_square Q (S m)) as (A & b & HAb & Hb); [by split|].
    destruct (Hgelss A b HAb) as (x & Hx & Hxlen).
    rewrite HAb. simpl rbind. rewrite Hx. simpl rbind.
    rewrite (accumulate_all x (Z.of_nat (S m))) by lia. simpl rbind.
    destruct (Z.eqb_spec (Z.of_nat (length x)) (Z.of_nat (S m))) as [_|?]; [|lia].
    simpl negb. cbv iota.
    assert (Kain.total (x ++ [Kain.sub Kain.one (fold_left Kain.add x Kain.zero)])
            = Kain.add (fold_left Kain.add x Kain.zero)
                (Kain.sub Kain.one (fold_left Kain.add x Kain.zero))) as Htotal.
    { unfold Kain.total. by rewrite fold_left_app. }
    eexists. split; [reflexivity|]. split; [|split; [|split]].
    + rewrite length_app. simpl. lia.
    + lia.
    + intros _. exists A, b, x.
      split; [done|]. split; [done|]. split; [lia|]. split; [done|]. exact Htotal.
    + intros [_ Hexact]. rewrite Htotal. apply Hexact.
Qed.

(** The statement above in double precision, at the matrix
    [Q_small_pivot] with the solver of one equation, where the entries
    [2^57] and [-2^57] add up to [2^57 + (1.0 - 2^57)]; and over the
    integers at the three by three identity. *)
Lemma KAIN_coefficients_witness :
  (exists c,
     Kain.KAIN Kain.gelss_1x1 Kain.Q_small_pivot = Ok c /\
     length c = 2%nat /\
     (2%nat = 1%nat -> c = [Kain.one] /\ Kain.total c = Kain.add Kain.zero Kain.one) /\
     ((1 < 2)%nat ->
        exists A b x,
          Kain.system Kain.Q_small_pivot (Z.of_nat 2 - 1) = Ok (A, b) /\
          Kain.gelss_1x1 A b Kain.rcond = Ok x /\
          length x = (2 - 1)%nat /\
          c = x ++ [Kain.sub Kain.one (fold_left Kain.add x Kain.zero)] /\
          Kain.total c
          = Kain.add (fold_left Kain.add x Kain.zero)
              (Kain.sub Kain.one (fold_left Kain.add x Kain.zero))) /\
     (Kain.exact_complement float -> Kain.total c = Kain.one)) /\
  (exists c,
     Kain.KAIN Kain.gelss_id Kain.Q_identity3 = Ok c /\
     length c = 3%nat /\
     (3%nat = 1%nat -> c = [Kain.one] /\ Kain.total c = Kain.add Kain.zero Kain.one) /\
     ((1 < 3)%nat ->
        exists A b x,
          Kain.system Kain.Q_identity3 (Z.of_nat 3 - 1) = Ok (A, b) /\
          Kain.gelss_id A b Kain.rcond = Ok x /\
          length x = (3 - 1)%nat /\
          c = x ++ [Kain.sub Kain.one (fold_left Kain.add x Kain.zero)] /\
          Kain.total c
          = Kain.add (fold_left Kain.add x Kain.zero)
              (Kain.sub Kain.one (fold_left Kain.add x Kain.zero))) /\
     (Kain.exact_complement Z -> Kain.total c = Kain.one)).
Proof.
  split.
  - apply (KAIN_coefficients Kain.gelss_1x1 Kain.Q_small_pivot 2).
    + lia.
    + split; [reflexivity|]. repeat constructor.
    + intros _ A b HAb. vm_compute in HAb. injection HAb as <- <-.
      eexists. split; reflexivity.
  - apply (KAIN_coefficients Kain.gelss_id Kain.Q_identity3 3).
    + lia.
    + split; [reflexivity|]. repeat constructor.
    + intros _ A b _. exists b. split; reflexivity.
Defined.

(* ===================================================================== *)
(** * Properties of the handle [Function] *)
(* ===================================================================== *)

(** Unfolds the members of [Function] and the monad they are written in. *)
Ltac unfold_handle :=
  unfold Function.eval, Function.get_impl, Function.compress,
    Function.reconstruct, Function.print_tree, Function.is_compressed,
    Function.copy, Function.copy_construct, Function.assign,
    Function.from_factory, Function.verify, Function.arrow,
    Function.call, Function.deref, Function.new, Function.send,
    Function.bind, Function.ret, Function.fail, Function.default in *.

Section Handle_facts.
Context `{FunctionImpl}.
Implicit Types (this f : Function.Function) (w : Function.world).

Lemma world_eta w : Function.World (Function.heap w) (Function.sent w) = w.
Proof. by destruct w. Qed.

Lemma handle_eta f : Function.Handle (Function.impl f) = f.
Proof. by destruct f. Qed.

(** [is_compressed] on a handle that points to a container reads its flag. *)
Lemma is_compressed_initialized this w p i :
  Function.impl this = Some p ->
  Function.heap w !! p = Some i ->
  Function.is_compressed this w = Ok (impl_is_compressed i, w).
Proof. intros Hp Hi. unfold_handle. rewrite Hp. simpl. by rewrite Hi. Qed.

(** [is_compressed] never changes the world. *)
Lemma is_compressed_pure this w b w' :
  Function.is_compressed this w = Ok (b, w') -> w' = w.
Proof.
  unfold_handle. destruct (Function.impl this) as [p|]; simpl.
  - destruct (Function.heap w !! p); simpl; congruence.
  - congruence.
Qed.

End Handle_facts.

(** The example worlds are what the handle produces: [Function f(factory)]
    in the empty world, then [f.compress()]. *)
Lemma line_world_built :
  Function.from_factory (FI := Example.impl0)
    (Tree.line_factory Tree.first_coordinate) Example.empty_world
  = Ok (Example.line_handle, Example.line_world).
Proof. reflexivity. Qed.

Lemma compressed_world_reached :
  Function.compress Example.line_handle true Example.line_world
  = Ok (tt, Example.compressed_world).
Proof. reflexivity. Qed.

(** C1, as stated, fails: on a default-constructed handle [compress],
    [reconstruct] and [print_tree] return normally and leave the world as
    it was, and [is_compressed] returns [false]; none of them fails. *)
Lemma default_handle_survives_compress :
  Function.compress Function.default true Example.empty_world
    = Ok (tt, Example.empty_world) /\
  Function.reconstruct Function.default true Example.empty_world
    = Ok (tt, Example.empty_world) /\
  Function.print_tree Function.default Example.empty_world
    = Ok (tt, Example.empty_world) /\
  Function.is_compressed Function.default Example.empty_world
    = Ok (false, Example.empty_world) /\
  ~ (exists e, Function.compress Function.default true Example.empty_world = Err e).
Proof.
  repeat split; try reflexivity.
  intros [e He]. discriminate He.
Qed.

(** C1 (amended).  On an uninitialized handle [eval] and [get_impl] fail
    the assertion [MADNESS_ASSERT(impl)]; [compress], [reconstruct] and
    [print_tree] return without changing the world (no container is
    touched, nothing is sent); [is_compressed] returns [false]. *)
Theorem uninitialized_handle `{FunctionImpl} (w : Function.world)
    (xuser : coordT) (fence : bool) :
  Function.eval Function.default xuser w = Err (AssertionFailed "impl") /\
  Function.get_impl Function.default w = Err (AssertionFailed "impl") /\
  Function.compress Function.default fence w = Ok (tt, w) /\
  Function.reconstruct Function.default fence w = Ok (tt, w) /\
  Function.print_tree Function.default w = Ok (tt, w) /\
  Function.is_compressed Function.default w = Ok (false, w).
Proof. repeat split. Qed.

(** C3.  [compress] on a handle whose function is compressed and
    [reconstruct] on a handle whose function is reconstructed return with
    the world unchanged: the heap of containers is the same and nothing
    has been sent.  The same holds for both on an uninitialized handle. *)
Theorem compress_reconstruct_noop `{FunctionImpl} (this : Function.Function)
    (w : Function.world) (fence : bool) :
  (Function.is_compressed this w = Ok (true, w) ->
     Function.compress this fence w = Ok (tt, w)) /\
  (Function.is_compressed this w = Ok (false, w) ->
     Function.reconstruct this fence w = Ok (tt, w)) /\
  (Function.impl this = None ->
     Function.compress this fence w = Ok (tt, w) /\
     Function.reconstruct this fence w = Ok (tt, w)).
Proof.
  split; [|split].
  - intros Hc. unfold Function.compress.
    destruct (Function.impl this); [|done].
    unfold Function.bind. rewrite Hc. reflexivity.
  - intros Hc. unfold Function.reconstruct.
    destruct (Function.impl this); [|done].
    unfold Function.bind. rewrite Hc. reflexivity.
  - intros Hnull. unfold Function.compress, Function.reconstruct.
    rewrite Hnull. done.
Qed.

(** The statement above on the compressed example, on the reconstructed
    example and on a default-constructed handle. *)
Lemma compress_reconstruct_noop_witness :
  Function.compress Example.line_handle true Example.compressed_world
    = Ok (tt, Example.compressed_world) /\
  Function.reconstruct Example.line_handle true Example.line_world
    = Ok (tt, Example.line_world) /\
  Function.compress Function.default true Example.line_world
    = Ok (tt, Example.line_world) /\
  Function.reconstruct Function.default true Example.line_world
    = Ok (tt, Example.line_world).
Proof.
  split; [|split].
  - apply (proj1 (compress_reconstruct_noop
                    Example.line_handle Example.compressed_world true)).
    reflexivity.
  - apply (proj1 (proj2 (compress_reconstruct_noop
                           Example.line_handle Example.line_world true))).
    reflexivity.
  - apply (proj2 (proj2 (compress_reconstruct_noop
                           Function.default Example.line_world true))).
    reflexivity.
Defined.

(** C9.  [is_compressed] on an uninitialized handle returns [false]; it
    does not fail.  On a handle that points to a container it returns the
    flag of the container.  Whenever it returns, the world is the one it
    started in: no container has changed and nothing has been sent. *)
Theorem is_compressed_uninitialized `{FunctionImpl} (w : Function.world) :
  Function.is_compressed Function.default w = Ok (false, w) /\
  (forall this p i,
     Function.impl this = Some p -> Function.heap w !! p = Some i ->
     Function.is_compressed this w = Ok (impl_is_compressed i, w)) /\
  (forall this b w',
     Function.is_compressed this w = Ok (b, w') ->
     w' = w /\ Function.sent w' = Function.sent w).
Proof.
  split; [reflexivity|]. split.
  - intros this p i. apply is_compressed_initialized.
  - intros this b w' Hc. apply is_compressed_pure in Hc. by subst.
Qed.

(** The statement above in the example world. *)
Lemma is_compressed_uninitialized_witness :
  Function.is_compressed Function.default Example.line_world
    = Ok (false, Example.line_world) /\
  Function.is_compressed Example.line_handle Example.line_world
    = Ok (false, Example.line_world) /\
  Function.sent Example.line_world = Function.sent Example.line_world.
Proof.
  destruct (is_compressed_uninitialized Example.line_world) as (H0 & H1 & H2).
  split; [exact H0|]. split.
  - exact (H1 Example.line_handle 1%positive Example.line_tree eq_refl eq_refl).
  - exact (proj2 (H2 Example.line_handle false Example.line_world
                    (H1 Example.line_handle 1%positive Example.line_tree eq_refl eq_refl))).
Defined.

(* ===================================================================== *)
(** * Copies of a handle *)
(* ===================================================================== *)

Section Copy_facts.
Context {FI : FunctionImpl}.
Implicit Types (this f : Function.Function) (w : Function.world).

(** What [copy] does on a handle that points to a container: a container
    at a fresh address receives the copy, the rest of the heap stays. *)
Lemma copy_initialized f w p src pmap :
  Function.impl f = Some p ->
  Function.heap w !! p = Some src ->
  let q := fresh (dom (Function.heap w)) in
  let made := impl_copy_coeffs (impl_new_copy src pmap) src in
  Function.copy f pmap w
  = Ok (Function.Handle (Some q),
        Function.World (<[q := made.1]> (Function.heap w))
                       (Function.sent w ++ made.2)).
Proof.
  intros Hp Hsrc q made. unfold_handle. rewrite Hp. simpl.
  rewrite Hsrc. simpl. rewrite lookup_insert_eq. simpl.
  by rewrite insert_insert_eq.
Qed.

Lemma fresh_address_unused w : Function.heap w !! fresh (dom (Function.heap w)) = None.
Proof. apply not_elem_of_dom, is_fresh. Qed.

(** A call through a handle leaves every other container alone. *)
Lemma compress_elsewhere this w w' q p fence :
  Function.impl this = Some q -> p ≠ q ->
  Function.compress this fence w = Ok (tt, w') ->
  Function.heap w' !! p = Function.heap w !! p.
Proof.
  intros Hq Hpq. unfold_handle. rewrite Hq. simpl.
  destruct (Function.heap w !! q) as [i|] eqn:Hi; simpl; [|done].
  destruct (impl_is_compressed i); simpl.
  - by intros [= <-].
  - rewrite Hi. simpl. intros [= <-]. simpl. by rewrite lookup_insert_ne.
Qed.

(** [compress] succeeds on every handle that points to a container. *)
Lemma compress_returns this w q i fence :
  Function.impl this = Some q -> Function.heap w !! q = Some i ->
  exists w', Function.compress this fence w = Ok (tt, w').
Proof.
  intros Hq Hi. unfold_handle. rewrite Hq. simpl. rewrite Hi. simpl.
  destruct (impl_is_compressed i); simpl; [by eexists|].
  rewrite Hi. simpl. by eexists.
Qed.

End Copy_facts.

(** C5.  The copy constructor and the assignment operator give a handle
    with the same pointer as their argument, in an unchanged world (no
    container is added or changed, nothing is sent).  [copy], and so the
    free function [madness::copy], puts a new container at an address that
    was not in use, hence different from that of the source; the source
    stays as it was; the new container has the coefficients and metadata
    of the source, under the given distribution map when there is one and
    under that of the source otherwise; and what is later done through
    the copy does not reach the source. *)
Theorem copies_shallow_and_deep (num : Tree.Numerics)
    (f : Function.Function) (w : @Function.world (Tree.tree_impl num))
    (p : positive) (src : Tree.impl) (new_pmap : option (Tree.Key -> N)) :
  Function.impl f = Some p ->
  Function.heap w !! p = Some src ->
  Function.copy_construct f w = Ok (f, w) /\
  (forall this, Function.assign false this f w = Ok (f, w)) /\
  Function.assign true f f w = Ok (f, w) /\
  exists q dst w',
    Function.copy (FI := Tree.tree_impl num) f new_pmap w
      = Ok (Function.Handle (Some q), w') /\
    copy (FI := Tree.tree_impl num) f new_pmap w
      = Function.copy (FI := Tree.tree_impl num) f new_pmap w /\
    Function.heap w !! q = None /\
    q ≠ p /\
    Function.heap w' !! p = Some src /\
    Function.heap w' !! q = Some dst /\
    (forall r, r ≠ q -> Function.heap w' !! r = Function.heap w !! r) /\
    Tree.nodes dst = Tree.nodes src /\
    Tree.compressed dst = Tree.compressed src /\
    Tree.k dst = Tree.k src /\
    Tree.thresh dst = Tree.thresh src /\
    Tree.pmap dst = default (Tree.pmap src) new_pmap /\
    (forall fence, exists w'',
       Function.compress (Function.Handle (Some q)) fence w' = Ok (tt, w'') /\
       Function.heap w'' !! p = Some src).
Proof.
  intros Hp Hsrc.
  split; [|split; [|split]].
  - unfold Function.copy_construct, Function.ret. by rewrite handle_eta.
  - intros this. unfold Function.assign, Function.ret. simpl. by rewrite handle_eta.
  - reflexivity.
  - pose proof (copy_initialized (FI := Tree.tree_impl num)
                  f w p src new_pmap Hp Hsrc) as Hcopy.
    cbv zeta in Hcopy.
    pose proof (fresh_address_unused (FI := Tree.tree_impl num) w) as Hq.
    remember (fresh (dom (Function.heap w))) as q eqn:Eq. clear Eq.
    assert (q ≠ p) as Hqp.
    { intros E. subst p. pose proof (eq_trans (eq_sym Hsrc) Hq) as X. discriminate X. }
    eexists q, _, _. split; [exact Hcopy|].
    split; [reflexivity|]. split; [exact Hq|]. split; [exact Hqp|].
    split; [simpl; by rewrite lookup_insert_ne|].
    split; [simpl; by rewrite lookup_insert_eq|].
    split; [intros r Hr; simpl; by rewrite lookup_insert_ne|].
    do 5 (split; [reflexivity|]).
    intros fence.
    match goal with
    | |- exists w'', Function.compress ?h _ ?w0 = _ /\ _ =>
        destruct (compress_returns (FI := Tree.tree_impl num) h w0 q _ fence
                    eq_refl (lookup_insert_eq _ _ _)) as [w'' Hw''];
        exists w''; split; [exact Hw''|];
        refine (eq_trans (compress_elsewhere (FI := Tree.tree_impl num)
                            h w0 w'' q p fence eq_refl (not_eq_sym Hqp) Hw'') _)
    end.
    simpl. rewrite lookup_insert_ne by done. exact Hsrc.
Qed.

(** The statement above on the example handle, copied under a map that
    gives every box to unit 1. *)
Lemma copies_shallow_and_deep_witness :
  Function.copy_construct Example.line_handle Example.line_world
    = Ok (Example.line_handle, Example.line_world) /\
  exists q dst w',
    Function.copy (FI := Example.impl0) Example.line_handle
        (Some (fun _ => 1%N)) Example.line_world
      = Ok (Function.Handle (Some q), w') /\
    q ≠ 1%positive /\
    Function.heap w' !! 1%positive = Some Example.line_tree /\
    Function.heap w' !! q = Some dst /\
    Tree.nodes dst = Tree.nodes Example.line_tree.
Proof.
  destruct (copies_shallow_and_deep Tree.midpoint_numerics
              Example.line_handle Example.line_world 1%positive
              Example.line_tree (Some (fun _ => 1%N)) eq_refl eq_refl)
    as (Hshallow & _ & _ & q & dst & w' & Hcopy & _ & _ & Hq & Hp & Hdst & _ & Hnodes & _).
  split; [exact Hshallow|].
  exists q, dst, w'. repeat split; assumption.
Defined.

(* ===================================================================== *)
(** * Properties of [XCfunctional] *)
(* ===================================================================== *)

(** ** Failures that are not failed assertions *)

Lemma no_assert_Ok {A} (a : A) : no_assert (Ok a).
Proof. intros cond. discriminate. Qed.

Lemma no_assert_bind {A B} (r : result A) (k : A -> result B) :
  no_assert r -> (forall a, no_assert (k a)) -> no_assert (rbind r k).
Proof.
  intros Hr Hk cond. destruct r as [a|e]; simpl.
  - apply Hk.
  - intros [= ->]. exact (Hr cond eq_refl).
Qed.

Lemma no_assert_of_option {A} (o : option A) e :
  (forall cond, e <> AssertionFailed cond) -> no_assert (of_option o e).
Proof. intros He cond. destruct o; simpl; [discriminate|]. intros [= E]. by eapply He. Qed.

Lemma no_assert_for_each {A B} (f : A -> result B) l :
  (forall a, no_assert (f a)) -> no_assert (for_each f l).
Proof.
  intros Hf. induction l as [|a l IH]; simpl.
  - apply no_assert_Ok.
  - apply no_assert_bind; [apply Hf|]. intros b.
    apply no_assert_bind; [apply IH|]. intros bs. apply no_assert_Ok.
Qed.

Lemma no_assert_for_funcs {S} (body : S -> _ -> result S) fs s :
  (forall s f, no_assert (body s f)) ->
  no_assert (XCfunctional.for_funcs body fs s).
Proof.
  intros Hbody. revert s. induction fs as [|f fs IH]; intros s; simpl.
  - apply no_assert_Ok.
  - apply no_assert_bind; [apply Hbody|]. intros s'. apply IH.
Qed.

Lemma no_assert_rd {A} (a : list A) i : no_assert (XCfunctional.rd a i).
Proof. apply no_assert_of_option. discriminate. Qed.

Lemma no_assert_rdZ {A} (a : list A) i : no_assert (XCfunctional.rdZ a i).
Proof.
  unfold XCfunctional.rdZ. destruct (i <? 0); [|apply no_assert_rd].
  intros cond. discriminate.
Qed.

Lemma no_assert_emul a b : no_assert (XCfunctional.emul a b).
Proof. unfold XCfunctional.emul. destruct (XCfunctional.conform a b); intros cond; discriminate. Qed.

Lemma no_assert_tensor_add a b : no_assert (XCfunctional.tensor_add a b).
Proof.
  unfold XCfunctional.tensor_add.
  destruct (XCfunctional.conform a b); intros cond; discriminate.
Qed.

(** Walks through a computation in [result] and shows that none of its
    failures is a failed assertion. *)
Ltac no_assert_step :=
  match goal with
  | |- no_assert (Ok _) => apply no_assert_Ok
  | |- no_assert (Err _) => let c := fresh in intros c; discriminate
  | |- no_assert (rbind _ _) => apply no_assert_bind; [|intros ?]
  | |- no_assert (for_each _ _) => apply no_assert_for_each; intros ?
  | |- no_assert (XCfunctional.for_funcs _ _ _) =>
      apply no_assert_for_funcs; intros ? ?
  | |- no_assert (XCfunctional.rd _ _) => apply no_assert_rd
  | |- no_assert (XCfunctional.rdZ _ _) => apply no_assert_rdZ
  | |- no_assert (XCfunctional.emul _ _) => apply no_assert_emul
  | |- no_assert (XCfunctional.tensor_add _ _) => apply no_assert_tensor_add
  | |- no_assert (XCfunctional.add_to _ _ _) => unfold XCfunctional.add_to
  | |- no_assert (XCfunctional.check_nan _ _ _) => unfold XCfunctional.check_nan
  | |- no_assert (if ?b then _ else _) => destruct b
  | |- no_assert (match ?x with _ => _ end) => destruct x
  | |- no_assert (let _ := _ in _) => cbv zeta
  end.

Section XC_facts.
Context {hdr : XCfunctional.Header} {lib : XCfunctional.Libxc}.
Variable this : XCfunctional.XCfunctional.

Lemma no_assert_make_libxc_args xc_args need_response :
  no_assert (XCfunctional.make_libxc_args this xc_args need_response).
Proof. unfold XCfunctional.make_libxc_args. repeat no_assert_step. Qed.

Lemma no_assert_fxc_step args np n1 n2 n3 xc_contrib st func :
  no_assert (XCfunctional.fxc_step this args np n1 n2 n3 xc_contrib st func).
Proof.
  unfold XCfunctional.fxc_step, XCfunctional.fxc_kernels, XCfunctional.fxc_result1.
  repeat no_assert_step.
Qed.

Lemma no_assert_fxc_apply_body t ispin xc_contrib :
  no_assert (XCfunctional.fxc_apply_body this t ispin xc_contrib).
Proof.
  unfold XCfunctional.fxc_apply_body.
  apply no_assert_bind; [apply no_assert_make_libxc_args|]. intros args.
  apply no_assert_bind; [apply no_assert_rd|]. intros t0. cbv zeta.
  apply no_assert_bind.
  { apply no_assert_for_funcs. intros st f. apply no_assert_fxc_step. }
  intros st. repeat no_assert_step.
Qed.

End XC_facts.

(** C10.  [fxc_apply] fails the assertion [!spin_polarized] on every
    spin-polarized functional, and the assertion [ispin==0] on every other
    functional called with [ispin] different from 0, whatever the
    intermediates [t], the contribution and the functional library are:
    nothing of [t] has been read and libxc has not been called.  When the
    functional is not spin-polarized and [ispin] is 0, no outcome of
    [fxc_apply] is a failed assertion. *)
Theorem fxc_apply_assertions {hdr : XCfunctional.Header} {lib : XCfunctional.Libxc}
    (this : XCfunctional.XCfunctional) (t : list (list float)) (ispin : Z)
    (xc_contrib : XCfunctional.xc_contribution) :
  (XCfunctional.spin_polarized this = true ->
     XCfunctional.fxc_apply this t ispin xc_contrib
     = Err (AssertionFailed "!spin_polarized")) /\
  (XCfunctional.spin_polarized this = false -> ispin <> 0 ->
     XCfunctional.fxc_apply this t ispin xc_contrib
     = Err (AssertionFailed "ispin==0")) /\
  (XCfunctional.spin_polarized this = false -> ispin = 0 ->
     XCfunctional.fxc_apply this t ispin xc_contrib
     = XCfunctional.fxc_apply_body this t ispin xc_contrib /\
     forall cond, XCfunctional.fxc_apply this t ispin xc_contrib
                  <> Err (AssertionFailed cond)).
Proof.
  unfold XCfunctional.fxc_apply. split; [|split].
  - intros ->. reflexivity.
  - intros -> Hispin. simpl.
    destruct (Z.eqb_spec ispin 0) as [?|_]; [done|]. reflexivity.
  - intros -> ->. simpl. split; [reflexivity|].
    apply no_assert_fxc_apply_body.
Qed.

(** The statement above on Slater exchange: spin-polarized without
    intermediates, with [ispin = 1], and with [ispin = 0], where the result
    is computed. *)
Lemma fxc_apply_assertions_witness :
  XCfunctional.fxc_apply (hdr := XCfunctional.example_header)
    (lib := XCfunctional.constant_libxc (-1)%float)
    XCfunctional.lda_x_polarized [] 0 XCfunctional.kernel_second_local
  = Err (AssertionFailed "!spin_polarized") /\
  XCfunctional.fxc_apply (hdr := XCfunctional.example_header)
    (lib := XCfunctional.constant_libxc (-1)%float)
    XCfunctional.lda_x (XCfunctional.one_point 0.5%float) 1
    XCfunctional.kernel_second_local
  = Err (AssertionFailed "ispin==0") /\
  (forall cond,
     XCfunctional.fxc_apply (hdr := XCfunctional.example_header)
       (lib := XCfunctional.constant_libxc (-1)%float)
       XCfunctional.lda_x (XCfunctional.one_point 0.5%float) 0
       XCfunctional.kernel_second_local
     <> Err (AssertionFailed cond)).
Proof.
  split; [|split].
  - apply (fxc_apply_assertions (hdr := XCfunctional.example_header)
             (lib := XCfunctional.constant_libxc (-1)%float)
             XCfunctional.lda_x_polarized [] 0 XCfunctional.kernel_second_local).
    reflexivity.
  - apply (fxc_apply_assertions (hdr := XCfunctional.example_header)
             (lib := XCfunctional.constant_libxc (-1)%float)
             XCfunctional.lda_x (XCfunctional.one_point 0.5%float) 1
             XCfunctional.kernel_second_local).
    + reflexivity.
    + lia.
  - apply (fxc_apply_assertions (hdr := XCfunctional.example_header)
             (lib := XCfunctional.constant_libxc (-1)%float)
             XCfunctional.lda_x (XCfunctional.one_point 0.5%float) 0
             XCfunctional.kernel_second_local).
    + reflexivity.
    + reflexivity.
Defined.

(** With [ispin = 0] on the functional that is not spin-polarized the
    call goes through and returns the kernel applied to the perturbed
    density. *)
Example fxc_apply_lda_x :
  XCfunctional.fxc_apply (hdr := XCfunctional.example_header)
    (lib := XCfunctional.constant_libxc (-1)%float)
    XCfunctional.lda_x (XCfunctional.one_point 0.5%float) 0
    XCfunctional.kernel_second_local
  = Ok [(-1)%float].
Proof. vm_compute. reflexivity. Qed.

(** ** NaN in the results *)

(** A product with NaN is NaN. *)
Lemma mul_nan_r (w : float) : (w * nan)%float = nan.
Proof.
  rewrite <- (SF2Prim_Prim2SF (w * nan)), mul_spec.
  change (Prim2SF nan) with S754_nan.
  unfold SF64mul, SFmul. by destruct (Prim2SF w).
Qed.

Lemma for_each_Ok_inv {A B} (f : A -> result B) l bs a :
  for_each f l = Ok bs -> a ∈ l -> exists b, f a = Ok b.
Proof.
  revert bs. induction l as [|a' l IH]; intros bs Hbs Ha; simpl in Hbs.
  - by apply elem_of_nil in Ha.
  - destruct (f a') as [b|] eqn:Hb; simpl in Hbs; [|done].
    destruct (for_each f l) as [bs'|]; simpl in Hbs; [|done].
    apply elem_of_cons in Ha as [->|Ha]; [by eexists|]. by eapply IH.
Qed.

(** After [check_nan] has gone through, no element of a result of [np]
    doubles is NaN. *)
Lemma check_nan_Ok res np msg :
  XCfunctional.check_nan res np msg = Ok tt ->
  length res = Z.to_nat np ->
  Forall (fun x => XCfunctional.isnan_x x = false) res.
Proof.
  unfold XCfunctional.check_nan. intros Hcheck Hlen.
  destruct (for_each _ _) as [us|] eqn:Hus; [|done].
  apply Forall_lookup. intros j x Hx.
  destruct (for_each_Ok_inv _ _ _ j Hus) as [u Hu].
  { apply elem_of_seq. apply lookup_lt_Some in Hx. lia. }
  unfold XCfunctional.rd in Hu. rewrite Hx in Hu. simpl in Hu.
  by destruct (XCfunctional.isnan_x x).
Qed.

Lemma add_to_length res np term res' :
  XCfunctional.add_to res np term = Ok res' -> length res' = Z.to_nat np.
Proof.
  unfold XCfunctional.add_to. intros Hr%for_each_length.
  rewrite Hr. unfold upto. by rewrite length_seq.
Qed.

Lemma for_funcs_invariant {S} (P : S -> Prop) (body : S -> _ -> result S) fs s s' :
  (forall s f s', P s -> body s f = Ok s' -> P s') ->
  P s -> XCfunctional.for_funcs body fs s = Ok s' -> P s'.
Proof.
  intros Hbody. revert s. induction fs as [|f fs IH]; intros s Hs; simpl.
  - by intros [= <-].
  - destruct (body s f) as [s1|] eqn:Hs1; simpl; [|done].
    apply IH. by eapply Hbody.
Qed.

Lemma tensor_add_length a b c :
  XCfunctional.tensor_add a b = Ok c -> length c = length a.
Proof.
  unfold XCfunctional.tensor_add, XCfunctional.conform.
  destruct (Nat.eqb_spec (length a) (length b)) as [Hab|]; [|done].
  intros [= <-]. rewrite length_zip_with. lia.
Qed.

Section NaN_facts.
Context {hdr : XCfunctional.Header} {lib : XCfunctional.Libxc}.
Variable this : XCfunctional.XCfunctional.

(** [vxc] does not return a NaN: the check before its [return] throws. *)
Lemma vxc_result_has_no_NaN t ispin xc_contrib result :
  XCfunctional.vxc this t ispin xc_contrib = Ok result ->
  Forall (fun x => XCfunctional.isnan_x x = false) result.
Proof.
  unfold XCfunctional.vxc.
  destruct (XCfunctional.make_libxc_args _ _ _) as [args|]; simpl; [|done].
  destruct (XCfunctional.rd t 0) as [t0|]; simpl; [|done].
  destruct (XCfunctional.for_funcs _ _ _) as [res|] eqn:Hres; simpl; [|done].
  destruct (XCfunctional.check_nan _ _ _) as [[]|] eqn:Hcheck; simpl; [|done].
  intros [= <-]. eapply check_nan_Ok; [exact Hcheck|].
  revert Hres.
  apply (for_funcs_invariant
           (fun r => length r = Z.to_nat (Z.of_nat (length t0)))).
  - intros s f s' _.
    repeat match goal with
           | |- context [match ?x with _ => _ end] => destruct x
           end; try done; apply add_to_length.
  - unfold XCfunctional.zeros. by rewrite length_replicate.
Qed.

Lemma fxc_kernels_result args np n1 n2 n3 xc_contrib st func st1 :
  XCfunctional.fxc_kernels args np n1 n2 n3 xc_contrib st func = Ok st1 ->
  XCfunctional.result_acc st1 = XCfunctional.result_acc st.
Proof.
  unfold XCfunctional.fxc_kernels.
  destruct (XCfunctional.family func.1); try destruct xc_contrib;
    try discriminate; by intros [= <-].
Qed.

Lemma fxc_result1_result args xc_contrib st1 st2 r :
  XCfunctional.fxc_result1 this args xc_contrib st1 = Ok (st2, r) ->
  XCfunctional.result_acc st2 = XCfunctional.result_acc st1.
Proof.
  unfold XCfunctional.fxc_result1.
  destruct xc_contrib; try discriminate.
  - destruct (XCfunctional.emul _ _); simpl; [|done].
    destruct (XCfunctional.is_gga this).
    + destruct (XCfunctional.emul _ _); simpl; [|done].
      destruct (XCfunctional.tensor_add _ _); simpl; [|done].
      by intros [= <- <-].
    + by intros [= <- <-].
  - destruct (XCfunctional.emul _ _); simpl; [|done].
    destruct (XCfunctional.emul _ _); simpl; [|done].
    destruct (XCfunctional.tensor_add _ _); simpl; [|done].
    by intros [= <- <-].
  - by intros [= <- <-].
Qed.

Lemma fxc_step_length args np n1 n2 n3 xc_contrib st func st' :
  XCfunctional.fxc_step this args np n1 n2 n3 xc_contrib st func = Ok st' ->
  length (XCfunctional.result_acc st') = length (XCfunctional.result_acc st).
Proof.
  unfold XCfunctional.fxc_step.
  destruct (XCfunctional.fxc_kernels _ _ _ _ _ _ _ _) as [st1|] eqn:H1;
    simpl; [|done].
  destruct (XCfunctional.fxc_result1 _ _ _ _) as [[st2 r]|] eqn:H2; simpl; [|done].
  destruct (XCfunctional.tensor_add _ _) as [acc|] eqn:Hacc; simpl; [|done].
  intros [= <-]. simpl.
  apply tensor_add_length in Hacc.
  apply fxc_kernels_result in H1. apply fxc_result1_result in H2. congruence.
Qed.

(** Neither does [fxc_apply]. *)
Lemma fxc_apply_result_has_no_NaN t ispin xc_contrib result :
  XCfunctional.fxc_apply this t ispin xc_contrib = Ok result ->
  Forall (fun x => XCfunctional.isnan_x x = false) result.
Proof.
  unfold XCfunctional.fxc_apply.
  destruct (negb (negb _)); [done|]. destruct (negb (ispin =? 0)); [done|].
  unfold XCfunctional.fxc_apply_body.
  destruct (XCfunctional.make_libxc_args _ _ _) as [args|]; simpl; [|done].
  destruct (XCfunctional.rd t 0) as [t0|]; simpl; [|done].
  destruct (XCfunctional.for_funcs _ _ _) as [st|] eqn:Hst; simpl; [|done].
  destruct (XCfunctional.check_nan _ _ _) as [[]|] eqn:Hcheck; simpl; [|done].
  intros [= <-]. eapply check_nan_Ok; [exact Hcheck|].
  revert Hst.
  apply (for_funcs_invariant
           (fun st => length (XCfunctional.result_acc st)
                      = Z.to_nat (Z.of_nat (length t0)))).
  - intros s f s' Hs Hstep. apply fxc_step_length in Hstep. congruence.
  - simpl. unfold XCfunctional.zeros. by rewrite length_replicate.
Qed.

End NaN_facts.

(** C4 at its failing input.  For Slater exchange, not spin-polarized,
    and one grid point whose density is NaN, [exc] returns, whatever libxc
    answers, a tensor whose element is NaN: it has no check of its result.
    [vxc] and [fxc_apply] never return such a tensor
    ([vxc_result_has_no_NaN], [fxc_apply_result_has_no_NaN]). *)
Theorem exc_returns_NaN (lib : XCfunctional.Libxc) :
  XCfunctional.exc (hdr := XCfunctional.example_header) (lib := lib)
    XCfunctional.lda_x (XCfunctional.one_point nan) = Ok [nan] /\
  XCfunctional.isnan_x nan = true.
Proof.
  split; [|reflexivity].
  unfold XCfunctional.exc.
  change (XCfunctional.make_libxc_args XCfunctional.lda_x
            (XCfunctional.one_point nan) false)
    with (Ok {| XCfunctional.rho := [nan]; XCfunctional.sigma := [];
                XCfunctional.rho_pt := []; XCfunctional.sigma_pt := [] |}).
  simpl.
  destruct (XCfunctional.xc_lda_exc _ _ _) as [|w out]; simpl.
  - reflexivity.
  - by rewrite mul_nan_r.
Qed.

(** On the same input libxc decides whether [vxc] throws: it does when
    libxc answers NaN. *)
Example vxc_throws_on_NaN :
  XCfunctional.vxc (hdr := XCfunctional.example_header)
    (lib := XCfunctional.constant_libxc nan)
    XCfunctional.lda_x (XCfunctional.one_point 0.5%float) 0
    XCfunctional.potential_rho
  = Err (MadnessException "NaN in xcfunctional::vxc") /\
  XCfunctional.exc (hdr := XCfunctional.example_header)
    (lib := XCfunctional.constant_libxc nan)
    XCfunctional.lda_x (XCfunctional.one_point 0.5%float) = Ok [nan].
Proof. split; vm_compute; reflexivity. Qed.

(* ===================================================================== *)
(** * More on [XCfunctional] *)
(* ===================================================================== *)

(** Takes one step in a hypothesis that says that a computation in
    [result] has succeeded. *)
Ltac step_ok H :=
  lazymatch type of H with
  | rbind ?r _ = Ok _ =>
      let E := fresh "E" in
      destruct r eqn:E; [cbn [rbind] in H | discriminate H]
  | (if ?b then _ else _) = Ok _ =>
      let E := fresh "E" in destruct b eqn:E
  | Err _ = Ok _ => discriminate H
  end.

Lemma for_each_Forall2 {A B} (f : A -> result B) l bs :
  for_each f l = Ok bs -> Forall2 (fun a b => f a = Ok b) l bs.
Proof.
  revert bs. induction l as [|a l IH]; simpl; intros bs Hbs.
  - injection Hbs as <-. constructor.
  - destruct (f a) as [b|] eqn:Hb; simpl in Hbs; [|done].
    destruct (for_each f l) as [bs'|]; simpl in Hbs; [|done].
    injection Hbs as <-. constructor; [done|]. by apply IH.
Qed.

Lemma for_each_Forall {A B} (P : B -> Prop) (f : A -> result B) l bs :
  (forall a b, f a = Ok b -> P b) -> for_each f l = Ok bs -> Forall P bs.
Proof.
  intros HP Hbs%for_each_Forall2.
  induction Hbs; constructor; eauto.
Qed.

Lemma upto_length (n : nat) : length (upto (Z.of_nat n)) = n.
Proof. unfold upto. by rewrite length_seq, Nat2Z.id. Qed.

Lemma concat_length_const {A} (n : nat) (ls : list (list A)) :
  Forall (fun l => length l = n) ls -> length (concat ls) = (n * length ls)%nat.
Proof.
  induction 1 as [|l ls Hl _ IH]; simpl; [lia|].
  rewrite length_app, IH, Hl. lia.
Qed.

Lemma written_length n out : length (XCfunctional.written n out) = Z.to_nat n.
Proof.
  unfold XCfunctional.written, XCfunctional.zeros.
  rewrite length_take, length_app, length_replicate. lia.
Qed.

Lemma rd_Ok {A} (a : list A) i x : XCfunctional.rd a i = Ok x <-> a !! i = Some x.
Proof.
  unfold XCfunctional.rd. destruct (a !! i); simpl; split; congruence.
Qed.

(** ** The arguments for libxc *)

Section Args_facts.
Context {hdr : XCfunctional.Header}.
Variable this : XCfunctional.XCfunctional.

(** X1.  When [make_libxc_args] succeeds, the functional is LDA or GGA
    and the tensors have the layout libxc expects for [np] grid points:
    [rho] has [np] entries (two for each point when spin-polarized),
    [sigma] is empty for LDA and has [np] entries for GGA (three for each
    point when spin-polarized), the perturbed tensors are filled only for
    a response calculation, and a response calculation is not
    spin-polarized. *)
Theorem make_libxc_args_layout (xc_args : list (list float))
    (need_response : bool) (args : XCfunctional.libxc_args) :
  XCfunctional.make_libxc_args this xc_args need_response = Ok args ->
  exists t0,
    xc_args !! 0%nat = Some t0 /\
    (XCfunctional.is_lda this || XCfunctional.is_gga this = true) /\
    (XCfunctional.spin_polarized this && need_response = false) /\
    length (XCfunctional.rho args)
      = ((if XCfunctional.spin_polarized this then 2 else 1) * length t0)%nat /\
    length (XCfunctional.sigma args)
      = (if XCfunctional.is_gga this
         then (if XCfunctional.spin_polarized this then 3 else 1) * length t0
         else 0)%nat /\
    length (XCfunctional.rho_pt args)
      = (if need_response then length t0 else 0)%nat /\
    length (XCfunctional.sigma_pt args)
      = (if need_response && XCfunctional.is_gga this then length t0 else 0)%nat.
Proof.
  unfold XCfunctional.make_libxc_args. intros Hargs.
  step_ok Hargs. rename a into t0.
  exists t0. split.
  { by apply rd_Ok. }
  assert (XCfunctional.is_lda this = true -> XCfunctional.is_gga this = false) as Hexcl.
  { unfold XCfunctional.is_lda, XCfunctional.is_gga. lia. }
  destruct (XCfunctional.spin_polarized this); simpl in Hargs;
    destruct (XCfunctional.is_lda this) eqn:Hlda;
    [rewrite (Hexcl eq_refl) in * | destruct (XCfunctional.is_gga this) eqn:Hgga; [|done]
    |rewrite (Hexcl eq_refl) in * | destruct (XCfunctional.is_gga this) eqn:Hgga; [|done]].
  - (* spin-polarized LDA *)
    do 3 step_ok Hargs. destruct need_response; [done|].
    injection Hargs as <-. simpl.
    repeat split; try done.
    rewrite (concat_length_const 2).
    + apply for_each_length in E2. rewrite E2, upto_length. lia.
    + eapply for_each_Forall; [|exact E2]. intros i b Hb. simpl in Hb.
      do 2 step_ok Hb. by injection Hb as <-.
  - (* spin-polarized GGA *)
    do 6 step_ok Hargs. destruct need_response; [done|].
    injection Hargs as <-. simpl.
    pose proof (for_each_length _ _ _ E5) as Hlen. rewrite upto_length in Hlen.
    repeat split; try done.
    + rewrite (concat_length_const 2).
      * rewrite length_fmap. lia.
      * apply Forall_fmap. eapply for_each_Forall; [|exact E5].
        intros i b Hb. simpl in Hb. do 5 step_ok Hb. by injection Hb as <-.
    + rewrite (concat_length_const 3).
      * rewrite length_fmap. lia.
      * apply Forall_fmap. eapply for_each_Forall; [|exact E5].
        intros i b Hb. simpl in Hb. do 5 step_ok Hb. by injection Hb as <-.
  - (* LDA *)
    do 2 step_ok Hargs.
    pose proof (for_each_length _ _ _ E1) as Hlen. rewrite upto_length in Hlen.
    destruct need_response.
    + do 2 step_ok Hargs. injection Hargs as <-. simpl.
      apply for_each_length in E3. rewrite upto_length in E3.
      repeat split; try done; lia.
    + injection Hargs as <-. simpl. repeat split; try done; lia.
  - (* GGA *)
    do 3 step_ok Hargs.
    pose proof (for_each_length _ _ _ E2) as Hlen. rewrite upto_length in Hlen.
    destruct need_response.
    + do 3 step_ok Hargs. injection Hargs as <-. simpl.
      apply for_each_length in E5. rewrite upto_length in E5.
      rewrite !length_fmap. repeat split; try done; lia.
    + injection Hargs as <-. simpl.
      rewrite !length_fmap. repeat split; try done; lia.
Qed.

End Args_facts.

(** The statement above for a GGA response calculation at one point. *)
Lemma make_libxc_args_layout_witness :
  exists t0,
    XCfunctional.gga_point 0.5 0.25 !! 0%nat = Some t0 /\
    (XCfunctional.is_lda XCfunctional.bp86 || XCfunctional.is_gga XCfunctional.bp86 = true) /\
    (XCfunctional.spin_polarized XCfunctional.bp86 && true = false) /\
    length [1%float] = ((if XCfunctional.spin_polarized XCfunctional.bp86 then 2 else 1) * length t0)%nat /\
    length [0.25%float]
      = (if XCfunctional.is_gga XCfunctional.bp86
         then (if XCfunctional.spin_polarized XCfunctional.bp86 then 3 else 1) * length t0
         else 0)%nat /\
    length [1%float] = (if true then length t0 else 0)%nat /\
    length [1%float]
      = (if true && XCfunctional.is_gga XCfunctional.bp86 then length t0 else 0)%nat.
Proof.
  apply (make_libxc_args_layout (hdr := XCfunctional.example_header)
           XCfunctional.bp86 (XCfunctional.gga_point 0.5 0.25) true
           {| XCfunctional.rho := [1%float]; XCfunctional.sigma := [0.25%float];
              XCfunctional.rho_pt := [1%float]; XCfunctional.sigma_pt := [1%float] |}).
  vm_compute. reflexivity.
Defined.

(** [a < b] implies [a <= b] for doubles. *)
Lemma ltb_leb (a b : float) : (a <? b)%float = true -> (a <=? b)%float = true.
Proof.
  rewrite ltb_spec, leb_spec. unfold SFltb, SFleb.
  by destruct (SFcompare _ _) as [[]|].
Qed.

(** [std::max(1.e-14, b)] is at least [1.e-14], also when [b] is NaN. *)
Lemma std_max_floor (b : float) :
  (XCfunctional.sigma_floor <=? XCfunctional.std_max XCfunctional.sigma_floor b)%float = true.
Proof.
  unfold XCfunctional.std_max.
  destruct (XCfunctional.sigma_floor <? b)%float eqn:Hlt.
  - by apply ltb_leb.
  - reflexivity.
Qed.

(** X2.  Every entry of the [sigma] that [make_libxc_args] hands to libxc
    is at least [1.e-14], whatever the densities and reduced gradients in
    [xc_args] are, NaN and negative values included. *)
Theorem make_libxc_args_sigma_floor {hdr : XCfunctional.Header}
    (this : XCfunctional.XCfunctional) (xc_args : list (list float))
    (need_response : bool) (args : XCfunctional.libxc_args) :
  XCfunctional.make_libxc_args this xc_args need_response = Ok args ->
  Forall (fun s => (XCfunctional.sigma_floor <=? s)%float = true)
         (XCfunctional.sigma args).
Proof.
  unfold XCfunctional.make_libxc_args. intros Hargs.
  step_ok Hargs.
  destruct (XCfunctional.spin_polarized this); simpl in Hargs;
    destruct (XCfunctional.is_lda this);
    [|destruct (XCfunctional.is_gga this); [|done]
     | |destruct (XCfunctional.is_gga this); [|done]].
  - do 3 step_ok Hargs. destruct need_response; [done|].
    injection Hargs as <-. constructor.
  - do 6 step_ok Hargs. destruct need_response; [done|].
    injection Hargs as <-. simpl.
    apply Forall_concat, Forall_fmap.
    eapply for_each_Forall; [|exact E5].
    intros i b Hb. simpl in Hb. do 5 step_ok Hb. injection Hb as <-. simpl.
    repeat constructor; apply std_max_floor.
  - do 2 step_ok Hargs. destruct need_response.
    + do 2 step_ok Hargs. injection Hargs as <-. constructor.
    + injection Hargs as <-. constructor.
  - do 3 step_ok Hargs.
    assert (Forall (fun s => (XCfunctional.sigma_floor <=? s)%float = true) (a2.*2)) as Hfloor.
    { apply Forall_fmap. eapply for_each_Forall; [|exact E2].
      intros i b Hb. simpl in Hb. do 2 step_ok Hb. injection Hb as <-. simpl.
      apply std_max_floor. }
    destruct need_response.
    + do 3 step_ok Hargs. by injection Hargs as <-.
    + by injection Hargs as <-.
Qed.

(** The statement above for a reduced gradient that is NaN: the entry of
    [sigma] is the floor itself. *)
Lemma make_libxc_args_sigma_floor_witness :
  Forall (fun s => (XCfunctional.sigma_floor <=? s)%float = true)
         [XCfunctional.sigma_floor].
Proof.
  apply (make_libxc_args_sigma_floor (hdr := XCfunctional.example_header)
           XCfunctional.bp86 (XCfunctional.gga_point 0.5 nan) false
           {| XCfunctional.rho := [1%float];
              XCfunctional.sigma := [XCfunctional.sigma_floor];
              XCfunctional.rho_pt := []; XCfunctional.sigma_pt := [] |}).
  vm_compute. reflexivity.
Defined.

(** X3.  [make_libxc_args] never succeeds for a spin-polarized functional
    in a response calculation: it reads outside its arguments or throws
    an exception. *)
Theorem make_libxc_args_no_polarized_response {hdr : XCfunctional.Header}
    (this : XCfunctional.XCfunctional) (xc_args : list (list float)) :
  XCfunctional.spin_polarized this = true ->
  exists e,
    XCfunctional.make_libxc_args this xc_args true = Err e /\
    (e = OutOfBounds \/
     e = MadnessException "no spin polarized DFT response in xcfunctional" \/
     e = MadnessException "only LDA and GGA available in xcfunctional").
Proof.
  intros Hpol. unfold XCfunctional.make_libxc_args. rewrite Hpol. simpl.
  assert (forall A (a : list A) i, (exists x, XCfunctional.rd a i = Ok x)
            \/ XCfunctional.rd a i = Err OutOfBounds) as Hrd.
  { intros A a i. unfold XCfunctional.rd. destruct (a !! i); simpl; eauto. }
  assert (forall A B (f : A -> result B) l,
            (forall a, (exists b, f a = Ok b) \/ f a = Err OutOfBounds) ->
            (exists bs, for_each f l = Ok bs) \/ for_each f l = Err OutOfBounds) as Hfor.
  { intros A B f l Hf. induction l as [|a l IH]; simpl; [eauto|].
    destruct (Hf a) as [[b ->]| ->]; simpl; [|eauto].
    destruct IH as [[bs ->]| ->]; simpl; eauto. }
  destruct (Hrd _ xc_args 0%nat) as [[t0 ->]| ->]; simpl; [|eauto].
  destruct (XCfunctional.is_lda this); [|destruct (XCfunctional.is_gga this); [|eauto 6]].
  - destruct (Hrd _ xc_args XCfunctional.enum_rhoa) as [[rhoa ->]| ->]; simpl; [|eauto].
    destruct (Hrd _ xc_args XCfunctional.enum_rhob) as [[rhob ->]| ->]; simpl; [|eauto].
    match goal with
    | |- context [for_each ?f ?l] => destruct (Hfor _ _ f l) as [[ds ->]| ->]
    end; simpl; eauto 6.
    intros i.
    destruct (Hrd _ rhoa i) as [[? ->]| ->]; simpl; [|eauto].
    destruct (Hrd _ (XCfunctional.or_dummy (Z.of_nat (length t0)) rhob) i)
      as [[? ->]| ->]; simpl; eauto.
  - destruct (Hrd _ xc_args XCfunctional.enum_rhoa) as [[rhoa ->]| ->]; simpl; [|eauto].
    destruct (Hrd _ xc_args XCfunctional.enum_rhob) as [[rhob ->]| ->]; simpl; [|eauto].
    destruct (Hrd _ xc_args XCfunctional.enum_chi_aa) as [[chiaa ->]| ->]; simpl; [|eauto].
    destruct (Hrd _ xc_args XCfunctional.enum_chi_ab) as [[chiab ->]| ->]; simpl; [|eauto].
    destruct (Hrd _ xc_args XCfunctional.enum_chi_bb) as [[chibb ->]| ->]; simpl; [|eauto].
    match goal with
    | |- context [for_each ?f ?l] => destruct (Hfor _ _ f l) as [[ds ->]| ->]
    end; simpl; eauto 6.
    intros i.
    destruct (Hrd _ rhoa i) as [[? ->]| ->]; simpl; [|eauto].
    destruct (Hrd _ (XCfunctional.or_dummy (Z.of_nat (length t0)) rhob) i)
      as [[? ->]| ->]; simpl; [|eauto].
    destruct (Hrd _ chiaa i) as [[? ->]| ->]; simpl; [|eauto].
    destruct (Hrd _ (XCfunctional.or_dummy (Z.of_nat (length t0)) chiab) i)
      as [[? ->]| ->]; simpl; [|eauto].
    destruct (Hrd _ (XCfunctional.or_dummy (Z.of_nat (length t0)) chibb) i)
      as [[? ->]| ->]; simpl; eauto.
Qed.

(** The statement above for spin-polarized Slater exchange. *)
Lemma make_libxc_args_no_polarized_response_witness :
  exists e,
    XCfunctional.make_libxc_args (hdr := XCfunctional.example_header)
      XCfunctional.lda_x_polarized (XCfunctional.one_point 0.5) true = Err e /\
    (e = OutOfBounds \/
     e = MadnessException "no spin polarized DFT response in xcfunctional" \/
     e = MadnessException "only LDA and GGA available in xcfunctional").
Proof.
  apply (make_libxc_args_no_polarized_response (hdr := XCfunctional.example_header)
           XCfunctional.lda_x_polarized (XCfunctional.one_point 0.5)).
  reflexivity.
Defined.

(** ** Outcomes of [exc], [vxc] and [fxc_apply] *)

Lemma add_to_total res np term :
  length res = Z.to_nat np ->
  (forall j, (j < Z.to_nat np)%nat -> exists e, term j = Ok e) ->
  exists res', XCfunctional.add_to res np term = Ok res' /\ length res' = Z.to_nat np.
Proof.
  intros Hlen Hterm. unfold XCfunctional.add_to.
  match goal with
  | |- context [for_each ?f ?l] => destruct (for_each_total f l) as [res' Hres']
  end.
  - apply Forall_forall. intros j Hj%elem_of_seq.
    destruct (lookup_lt_is_Some_2 res j) as [r Hr]; [lia|].
    apply rd_Ok in Hr. rewrite Hr. simpl.
    destruct (Hterm j) as [e ->]; [lia|]. simpl. by eexists.
  - exists res'. split; [done|].
    apply for_each_length in Hres'. rewrite Hres'. unfold upto. by rewrite length_seq.
Qed.

Lemma rd_total {A} (a : list A) i : (i < length a)%nat -> exists x, XCfunctional.rd a i = Ok x.
Proof.
  intros Hi. destruct (lookup_lt_is_Some_2 a i Hi) as [x Hx].
  exists x. by apply rd_Ok.
Qed.

Lemma zeros_length (n : nat) : length (XCfunctional.zeros (Z.of_nat n)) = n.
Proof. unfold XCfunctional.zeros. by rewrite length_replicate, Nat2Z.id. Qed.

(** X4.  Once [make_libxc_args] has succeeded, [exc] fails only on a
    functional whose family has no case in its [switch] (it then throws
    "HOW DID WE GET HERE?"); otherwise it returns a tensor with one entry
    for each grid point, which is all zeros when there is no functional. *)
Theorem exc_outcome {hdr : XCfunctional.Header} {lib : XCfunctional.Libxc}
    (this : XCfunctional.XCfunctional) (t : list (list float))
    (args : XCfunctional.libxc_args) :
  XCfunctional.make_libxc_args this t false = Ok args ->
  exists t0, t !! 0%nat = Some t0 /\
  if forallb XCfunctional.has_exc_case (XCfunctional.funcs this)
  then exists result,
         XCfunctional.exc this t = Ok result /\
         length result = length t0 /\
         (XCfunctional.funcs this = [] -> result = replicate (length t0) 0%float)
  else XCfunctional.exc this t = Err (Thrown "HOW DID WE GET HERE?").
Proof.
  intros Hargs.
  destruct (make_libxc_args_layout this t false args Hargs)
    as (t0 & Ht0 & _ & _ & Hrho & _).
  exists t0. split; [done|].
  unfold XCfunctional.exc. rewrite Hargs. cbn [rbind].
  apply rd_Ok in Ht0. rewrite Ht0. cbn [rbind]. cbv zeta.
  set (np := Z.of_nat (length t0)).
  set (body := fun res func => _).
  assert (forall fs res, length res = length t0 ->
            if forallb XCfunctional.has_exc_case fs
            then exists result,
                   XCfunctional.for_funcs body fs res = Ok result /\
                   length result = length t0 /\ (fs = [] -> result = res)
            else XCfunctional.for_funcs body fs res
                 = Err (Thrown "HOW DID WE GET HERE?")) as Hloop.
  { induction fs as [|func fs IH]; intros res Hres; simpl.
    - by exists res.
    - assert (XCfunctional.has_exc_case func = true ->
              exists res', body res func = Ok res' /\ length res' = length t0) as Hstep.
      { intros Hcase. unfold body.
        assert (exists work,
                  match XCfunctional.family func.1 with
                  | XCfunctional.XC_FAMILY_LDA =>
                      Ok (XCfunctional.written np
                            (XCfunctional.xc_lda_exc func.1 np (XCfunctional.rho args)))
                  | XCfunctional.XC_FAMILY_GGA | XCfunctional.XC_FAMILY_HYB_GGA =>
                      Ok (XCfunctional.written np
                            (XCfunctional.xc_gga_exc func.1 np (XCfunctional.rho args)
                               (XCfunctional.sigma args)))
                  | _ => Err (Thrown "HOW DID WE GET HERE?")
                  end = Ok work /\ length work = length t0) as (work & -> & Hwork).
        { unfold XCfunctional.has_exc_case in Hcase.
          destruct (XCfunctional.family func.1); try discriminate Hcase;
            eexists; (split; [reflexivity|]);
            rewrite written_length; unfold np; by rewrite Nat2Z.id. }
        cbn [rbind].
        destruct (XCfunctional.spin_polarized this).
        - edestruct add_to_total as (res' & -> & Hres'); [| |eexists; split; [done|]].
          + unfold np. by rewrite Nat2Z.id.
          + unfold np. rewrite Nat2Z.id. intros j Hj.
            destruct (rd_total work j) as [w ->]; [lia|].
            destruct (rd_total (XCfunctional.rho args) (2 * j + 1)) as [d1 ->]; [lia|].
            destruct (rd_total (XCfunctional.rho args) (2 * j)) as [d0 ->]; [lia|].
            simpl. by eexists.
          + unfold np in Hres'. by rewrite Nat2Z.id in Hres'.
        - edestruct add_to_total as (res' & -> & Hres'); [| |eexists; split; [done|]].
          + unfold np. by rewrite Nat2Z.id.
          + unfold np. rewrite Nat2Z.id. intros j Hj.
            destruct (rd_total work j) as [w ->]; [lia|].
            destruct (rd_total (XCfunctional.rho args) j) as [d ->]; [lia|].
            simpl. by eexists.
          + unfold np in Hres'. by rewrite Nat2Z.id in Hres'. }
      destruct (XCfunctional.has_exc_case func) eqn:Hcase; simpl.
      + destruct (Hstep eq_refl) as (res' & -> & Hres'). cbn [rbind].
        specialize (IH res' Hres').
        destruct (forallb XCfunctional.has_exc_case fs).
        * destruct IH as (result & -> & Hlen & _). exists result. by repeat split.
        * exact IH.
      + unfold body at 1. unfold XCfunctional.has_exc_case in Hcase.
        by destruct (XCfunctional.family func.1). }
  specialize (Hloop (XCfunctional.funcs this) (XCfunctional.zeros np)
                (zeros_length (length t0))).
  destruct (forallb XCfunctional.has_exc_case (XCfunctional.funcs this)).
  - destruct Hloop as (result & -> & Hlen & Hnil). cbn [rbind].
    exists result. split; [done|]. split; [done|].
    intros Hfs. rewrite (Hnil Hfs). unfold XCfunctional.zeros, np. by rewrite Nat2Z.id.
  - by rewrite Hloop.
Qed.

(** The statement above for Becke-Perdew at one point. *)
Lemma exc_outcome_witness :
  exists t0, XCfunctional.gga_point 0.5 0.25 !! 0%nat = Some t0 /\
  exists result,
    XCfunctional.exc (hdr := XCfunctional.example_header)
      (lib := XCfunctional.constant_libxc (-1)%float)
      XCfunctional.bp86 (XCfunctional.gga_point 0.5 0.25) = Ok result /\
    length result = length t0 /\
    (XCfunctional.funcs XCfunctional.bp86 = [] -> result = replicate (length t0) 0%float).
Proof.
  apply (exc_outcome (hdr := XCfunctional.example_header)
           (lib := XCfunctional.constant_libxc (-1)%float)
           XCfunctional.bp86 (XCfunctional.gga_point 0.5 0.25)
           {| XCfunctional.rho := [1%float]; XCfunctional.sigma := [0.25%float];
              XCfunctional.rho_pt := []; XCfunctional.sigma_pt := [] |}).
  vm_compute. reflexivity.
Defined.

(** X5.  A functional that is neither LDA nor GGA ([nderiv] other than 0
    and 1, a meta-GGA for instance) is rejected by every routine as soon
    as there is a first intermediate: [make_libxc_args], and with it
    [exc], [vxc] and [fxc_apply] past its assertions, throw "only LDA and
    GGA available in xcfunctional". *)
Theorem only_lda_and_gga {hdr : XCfunctional.Header} {lib : XCfunctional.Libxc}
    (this : XCfunctional.XCfunctional) (t0 : list float) (t : list (list float))
    (need_response : bool) (ispin : Z)
    (xc_contrib : XCfunctional.xc_contribution) :
  XCfunctional.is_lda this = false ->
  XCfunctional.is_gga this = false ->
  let e := MadnessException "only LDA and GGA available in xcfunctional" in
  XCfunctional.make_libxc_args this (t0 :: t) need_response = Err e /\
  XCfunctional.exc this (t0 :: t) = Err e /\
  XCfunctional.vxc this (t0 :: t) ispin xc_contrib = Err e /\
  XCfunctional.fxc_apply_body this (t0 :: t) ispin xc_contrib = Err e.
Proof.
  intros Hlda Hgga e.
  assert (forall nr, XCfunctional.make_libxc_args this (t0 :: t) nr = Err e) as Hargs.
  { intros nr. unfold XCfunctional.make_libxc_args. simpl.
    rewrite Hlda, Hgga. by destruct (XCfunctional.spin_polarized this). }
  unfold XCfunctional.exc, XCfunctional.vxc, XCfunctional.fxc_apply_body.
  by rewrite !Hargs.
Qed.

(** The statement above for the meta-GGA example. *)
Lemma only_lda_and_gga_witness :
  XCfunctional.exc (hdr := XCfunctional.example_header)
    (lib := XCfunctional.constant_libxc (-1)%float)
    XCfunctional.meta_gga ([0.5%float] :: [])
  = Err (MadnessException "only LDA and GGA available in xcfunctional").
Proof.
  apply (only_lda_and_gga (hdr := XCfunctional.example_header)
           (lib := XCfunctional.constant_libxc (-1)%float)
           XCfunctional.meta_gga [0.5%float] [] false 0 XCfunctional.potential_rho);
    reflexivity.
Defined.

Section Outcome_facts.
Context {hdr : XCfunctional.Header} {lib : XCfunctional.Libxc}.
Variable this : XCfunctional.XCfunctional.

Lemma vxc_result_length t ispin xc_contrib result t0 :
  t !! 0%nat = Some t0 ->
  XCfunctional.vxc this t ispin xc_contrib = Ok result ->
  length result = length t0.
Proof.
  intros Ht0%rd_Ok. unfold XCfunctional.vxc.
  destruct (XCfunctional.make_libxc_args _ _ _) as [args|]; simpl; [|done].
  rewrite Ht0. simpl.
  destruct (XCfunctional.for_funcs _ _ _) as [res|] eqn:Hres; simpl; [|done].
  destruct (XCfunctional.check_nan _ _ _) as [[]|]; simpl; [|done].
  intros [= <-]. revert Hres.
  apply (for_funcs_invariant (fun r => length r = length t0)).
  - intros s f s' _.
    repeat match goal with
           | |- context [match ?x with _ => _ end] => destruct x
           end; try done; intros ->%add_to_length; by rewrite Nat2Z.id.
  - apply zeros_length.
Qed.

Lemma fxc_apply_result_length t ispin xc_contrib result t0 :
  t !! 0%nat = Some t0 ->
  XCfunctional.fxc_apply this t ispin xc_contrib = Ok result ->
  length result = length t0.
Proof.
  intros Ht0%rd_Ok. unfold XCfunctional.fxc_apply.
  destruct (negb (negb _)); [done|]. destruct (negb (ispin =? 0)); [done|].
  unfold XCfunctional.fxc_apply_body.
  destruct (XCfunctional.make_libxc_args _ _ _) as [args|]; simpl; [|done].
  rewrite Ht0. simpl.
  destruct (XCfunctional.for_funcs _ _ _) as [st|] eqn:Hst; simpl; [|done].
  destruct (XCfunctional.check_nan _ _ _) as [[]|]; simpl; [|done].
  intros [= <-]. revert Hst.
  apply (for_funcs_invariant
           (fun st => length (XCfunctional.result_acc st) = length t0)).
  - intros s f s' Hs Hstep. apply fxc_step_length in Hstep. congruence.
  - simpl. apply zeros_length.
Qed.

End Outcome_facts.

(** X6.  Whatever [vxc] returns has one entry for each grid point, and no
    entry is NaN: a NaN in the accumulated potential makes [vxc] throw
    instead. *)
Theorem vxc_returns_numbers {hdr : XCfunctional.Header} {lib : XCfunctional.Libxc}
    (this : XCfunctional.XCfunctional) (t : list (list float)) (ispin : Z)
    (xc_contrib : XCfunctional.xc_contribution) (result : list float) :
  XCfunctional.vxc this t ispin xc_contrib = Ok result ->
  exists t0, t !! 0%nat = Some t0 /\
    length result = length t0 /\
    Forall (fun x => XCfunctional.isnan_x x = false) result.
Proof.
  intros Hvxc.
  assert (exists t0, t !! 0%nat = Some t0) as [t0 Ht0].
  { revert Hvxc. unfold XCfunctional.vxc.
    destruct (XCfunctional.make_libxc_args _ _ _) as [args|]; simpl; [|done].
    destruct (XCfunctional.rd t 0) as [t0|] eqn:Ht0; simpl; [|done].
    intros _. exists t0. by apply rd_Ok. }
  exists t0. split; [done|]. split.
  - by eapply vxc_result_length.
  - by eapply vxc_result_has_no_NaN.
Qed.

(** The statement above for Slater exchange at one point. *)
Lemma vxc_returns_numbers_witness :
  exists t0, XCfunctional.one_point 0.5 !! 0%nat = Some t0 /\
    length [(-1)%float] = length t0 /\
    Forall (fun x => XCfunctional.isnan_x x = false) [(-1)%float].
Proof.
  apply (vxc_returns_numbers (hdr := XCfunctional.example_header)
           (lib := XCfunctional.constant_libxc (-1)%float)
           XCfunctional.lda_x (XCfunctional.one_point 0.5) 0
           XCfunctional.potential_rho).
  vm_compute. reflexivity.
Defined.

(** X7.  [fxc_apply] returns only for a functional that is not
    spin-polarized and for [ispin] 0; what it returns has one entry for
    each grid point and no entry is NaN. *)
Theorem fxc_apply_returns_numbers {hdr : XCfunctional.Header}
    {lib : XCfunctional.Libxc}
    (this : XCfunctional.XCfunctional) (t : list (list float)) (ispin : Z)
    (xc_contrib : XCfunctional.xc_contribution) (result : list float) :
  XCfunctional.fxc_apply this t ispin xc_contrib = Ok result ->
  XCfunctional.spin_polarized this = false /\ ispin = 0 /\
  exists t0, t !! 0%nat = Some t0 /\
    length result = length t0 /\
    Forall (fun x => XCfunctional.isnan_x x = false) result.
Proof.
  intros Hfxc.
  assert (XCfunctional.spin_polarized this = false /\ ispin = 0 /\
          exists t0, t !! 0%nat = Some t0) as (Hpol & Hispin & t0 & Ht0).
  { revert Hfxc. unfold XCfunctional.fxc_apply.
    destruct (XCfunctional.spin_polarized this); simpl; [done|].
    destruct (Z.eqb_spec ispin 0) as [->|]; simpl; [|done].
    unfold XCfunctional.fxc_apply_body.
    destruct (XCfunctional.make_libxc_args _ _ _) as [args|]; simpl; [|done].
    destruct (XCfunctional.rd t 0) as [t0|] eqn:Ht0; simpl; [|done].
    intros _. repeat split. exists t0. by apply rd_Ok. }
  split; [done|]. split; [done|]. exists t0. split; [done|]. split.
  - by eapply fxc_apply_result_length.
  - by eapply fxc_apply_result_has_no_NaN.
Qed.

(** The statement above for Slater exchange at one point. *)
Lemma fxc_apply_returns_numbers_witness :
  XCfunctional.spin_polarized XCfunctional.lda_x = false /\ 0 = 0 /\
  exists t0, XCfunctional.one_point 0.5 !! 0%nat = Some t0 /\
    length [(-1)%float] = length t0 /\
    Forall (fun x => XCfunctional.isnan_x x = false) [(-1)%float].
Proof.
  apply (fxc_apply_returns_numbers (hdr := XCfunctional.example_header)
           (lib := XCfunctional.constant_libxc (-1)%float)
           XCfunctional.lda_x (XCfunctional.one_point 0.5) 0
           XCfunctional.kernel_second_local).
  vm_compute. reflexivity.
Defined.

Lemma rd_cases {A} (a : list A) i :
  (exists x, XCfunctional.rd a i = Ok x) \/ XCfunctional.rd a i = Err OutOfBounds.
Proof. unfold XCfunctional.rd. destruct (a !! i); simpl; eauto. Qed.

Lemma for_each_out_of_bounds {A B} (f : A -> result B) (l : list A) :
  (forall a, a ∈ l -> (exists b, f a = Ok b) \/ f a = Err OutOfBounds) ->
  (exists a, a ∈ l /\ f a = Err OutOfBounds) ->
  for_each f l = Err OutOfBounds.
Proof.
  induction l as [|a l IH]; intros Hall (a' & Ha' & Hfail).
  - by apply elem_of_nil in Ha'.
  - simpl. destruct (Hall a) as [[b Hb]|Hb]; [left| |]; rewrite Hb; simpl; [|done].
    apply elem_of_cons in Ha' as [->|Ha']; [congruence|].
    rewrite IH; [done| |by eauto].
    intros a'' Ha''. apply Hall. by right.
Qed.

(** X8.  [vxc] does not check [ispin].  For a functional that is not
    spin-polarized and whose first functional is an LDA, on a box with
    at least one grid point, any [ispin] other than 0 makes the loop
    [res[j] += vr[nvrho*j+ispin]*...] read outside the buffer [vr] that
    libxc has filled. *)
Theorem vxc_lda_ispin_out_of_bounds {hdr : XCfunctional.Header}
    {lib : XCfunctional.Libxc}
    (this : XCfunctional.XCfunctional) (t : list (list float))
    (args : XCfunctional.libxc_args) (t0 : list float)
    (func : XCfunctional.xc_func_type * float)
    (rest : list (XCfunctional.xc_func_type * float))
    (ispin : Z) (xc_contrib : XCfunctional.xc_contribution) :
  XCfunctional.make_libxc_args this t false = Ok args ->
  t !! 0%nat = Some t0 -> t0 <> [] ->
  XCfunctional.spin_polarized this = false ->
  XCfunctional.funcs this = func :: rest ->
  XCfunctional.family func.1 = XCfunctional.XC_FAMILY_LDA ->
  ispin <> 0 ->
  XCfunctional.vxc this t ispin xc_contrib = Err OutOfBounds.
Proof.
  intros Hargs Ht0%rd_Ok Hne Hpol Hfuncs Hfam Hispin.
  unfold XCfunctional.vxc. rewrite Hargs. cbn [rbind]. rewrite Ht0. cbn [rbind].
  rewrite Hpol, Hfuncs. cbv zeta. cbn [XCfunctional.for_funcs]. rewrite Hfam.
  set (np := Z.of_nat (length t0)).
  assert (0 < length t0)%nat as Hpos by (destruct t0; [done|simpl; lia]).
  unfold XCfunctional.add_to at 1.
  rewrite for_each_out_of_bounds; [done| |].
  - intros j Hj%elem_of_seq.
    destruct (rd_total (XCfunctional.zeros np) j) as [r ->].
    { unfold np. rewrite zeros_length. unfold np in Hj. lia. }
    cbn [rbind]. unfold XCfunctional.rdZ.
    destruct (_ <? 0); [by right|].
    match goal with
    | |- context [XCfunctional.rd ?a ?i] => destruct (rd_cases a i) as [[v ->]| ->]
    end; simpl; eauto.
  - destruct (Z.lt_total ispin 0) as [Hneg|[?|Hgt]]; [|done|].
    + exists 0%nat. split; [apply elem_of_seq; unfold np; lia|].
      destruct (rd_total (XCfunctional.zeros np) 0) as [r ->].
      { unfold np. rewrite zeros_length. lia. }
      cbn [rbind]. unfold XCfunctional.rdZ.
      destruct (Z.ltb_spec (1 * Z.of_nat 0 + ispin) 0); [done|lia].
    + exists (length t0 - 1)%nat. split; [apply elem_of_seq; unfold np; lia|].
      destruct (rd_total (XCfunctional.zeros np) (length t0 - 1)) as [r ->].
      { unfold np. rewrite zeros_length. lia. }
      cbn [rbind]. unfold XCfunctional.rdZ.
      destruct (Z.ltb_spec (1 * Z.of_nat (length t0 - 1) + ispin) 0); [done|].
      unfold XCfunctional.rd. rewrite lookup_ge_None_2; [done|].
      rewrite written_length. unfold np. lia.
Qed.

(** The statement above for Slater exchange at one point with [ispin] 1. *)
Lemma vxc_lda_ispin_out_of_bounds_witness :
  XCfunctional.vxc (hdr := XCfunctional.example_header)
    (lib := XCfunctional.constant_libxc (-1)%float)
    XCfunctional.lda_x (XCfunctional.one_point 0.5) 1 XCfunctional.potential_rho
  = Err OutOfBounds.
Proof.
  apply (vxc_lda_ispin_out_of_bounds (hdr := XCfunctional.example_header)
           (lib := XCfunctional.constant_libxc (-1)%float)
           XCfunctional.lda_x (XCfunctional.one_point 0.5)
           {| XCfunctional.rho := [1%float]; XCfunctional.sigma := [];
              XCfunctional.rho_pt := []; XCfunctional.sigma_pt := [] |}
           [0.5%float]
           ({| XCfunctional.number := 1;
               XCfunctional.family := XCfunctional.XC_FAMILY_LDA |}, 1%float) []).
  - vm_compute. reflexivity.
  - reflexivity.
  - discriminate.
  - reflexivity.
  - reflexivity.
  - reflexivity.
  - lia.
Defined.

(** X9.  When the first functional is a GGA or a hybrid GGA, [vxc] throws
    "ouch" for each of the three kernel contributions, and also for the
    mixed-spin potential when the functional is not spin-polarized. *)
Theorem vxc_ouch {hdr : XCfunctional.Header} {lib : XCfunctional.Libxc}
    (this : XCfunctional.XCfunctional) (t : list (list float))
    (args : XCfunctional.libxc_args)
    (func : XCfunctional.xc_func_type * float)
    (rest : list (XCfunctional.xc_func_type * float))
    (ispin : Z) (xc_contrib : XCfunctional.xc_contribution) :
  XCfunctional.make_libxc_args this t false = Ok args ->
  XCfunctional.funcs this = func :: rest ->
  XCfunctional.family func.1 = XCfunctional.XC_FAMILY_GGA \/
    XCfunctional.family func.1 = XCfunctional.XC_FAMILY_HYB_GGA ->
  xc_contrib = XCfunctional.kernel_second_local \/
    xc_contrib = XCfunctional.kernel_second_semilocal \/
    xc_contrib = XCfunctional.kernel_first_semilocal \/
    (XCfunctional.spin_polarized this = false /\
     xc_contrib = XCfunctional.potential_mixed_spin) ->
  XCfunctional.vxc this t ispin xc_contrib = Err (Thrown "ouch").
Proof.
  intros Hargs Hfuncs Hfam Hcontrib.
  destruct (make_libxc_args_layout this t false args Hargs) as (t0 & Ht0%rd_Ok & _).
  unfold XCfunctional.vxc. rewrite Hargs. cbn [rbind]. rewrite Ht0. cbn [rbind].
  rewrite Hfuncs. cbv zeta. cbn [XCfunctional.for_funcs].
  destruct Hfam as [-> | ->];
    destruct Hcontrib as [-> | [-> | [-> | [-> ->]]]];
    try reflexivity; by destruct (XCfunctional.spin_polarized this).
Qed.

(** The statement above for Becke-Perdew and the mixed-spin potential. *)
Lemma vxc_ouch_witness :
  XCfunctional.vxc (hdr := XCfunctional.example_header)
    (lib := XCfunctional.constant_libxc (-1)%float)
    XCfunctional.bp86 (XCfunctional.gga_point 0.5 0.25) 0
    XCfunctional.potential_mixed_spin
  = Err (Thrown "ouch").
Proof.
  apply (vxc_ouch (hdr := XCfunctional.example_header)
           (lib := XCfunctional.constant_libxc (-1)%float)
           XCfunctional.bp86 (XCfunctional.gga_point 0.5 0.25)
           {| XCfunctional.rho := [1%float]; XCfunctional.sigma := [0.25%float];
              XCfunctional.rho_pt := []; XCfunctional.sigma_pt := [] |}
           ({| XCfunctional.number := 106;
               XCfunctional.family := XCfunctional.XC_FAMILY_GGA |}, 1%float)
           [({| XCfunctional.number := 132;
                XCfunctional.family := XCfunctional.XC_FAMILY_GGA |}, 1%float)]).
  - vm_compute. reflexivity.
  - reflexivity.
  - left. reflexivity.
  - right. right. right. split; reflexivity.
Defined.

Lemma check_nan_zeros (n : nat) msg :
  XCfunctional.check_nan (XCfunctional.zeros (Z.of_nat n)) (Z.of_nat n) msg = Ok tt.
Proof.
  unfold XCfunctional.check_nan.
  match goal with
  | |- context [for_each ?f ?l] => destruct (for_each_total f l) as [us ->]
  end; [|done].
  apply Forall_forall. intros j Hj%elem_of_seq.
  unfold XCfunctional.rd, XCfunctional.zeros.
  rewrite lookup_replicate_2 by lia. simpl. by eexists.
Qed.

(** X10.  [fxc_apply] on a functional that is not spin-polarized, with
    [ispin] 0 and one of the three potential contributions: without any
    functional the contribution is never looked at and the result is the
    zero tensor; otherwise the first functional makes it throw, "confused
    xc_contrib in fxc_apply" for an LDA, GGA or hybrid GGA and "unknown
    XC_FAMILY xcfunctional::fxc" for any other family. *)
Theorem fxc_apply_potential_contribution {hdr : XCfunctional.Header}
    {lib : XCfunctional.Libxc}
    (this : XCfunctional.XCfunctional) (t : list (list float))
    (args : XCfunctional.libxc_args)
    (xc_contrib : XCfunctional.xc_contribution) :
  XCfunctional.spin_polarized this = false ->
  XCfunctional.make_libxc_args this t true = Ok args ->
  xc_contrib = XCfunctional.potential_rho \/
    xc_contrib = XCfunctional.potential_same_spin \/
    xc_contrib = XCfunctional.potential_mixed_spin ->
  match XCfunctional.funcs this with
  | [] => exists t0, t !! 0%nat = Some t0 /\
            XCfunctional.fxc_apply this t 0 xc_contrib
            = Ok (replicate (length t0) 0%float)
  | func :: _ =>
      XCfunctional.fxc_apply this t 0 xc_contrib
      = Err (MadnessException
               (if XCfunctional.has_exc_case func
                then "confused xc_contrib in fxc_apply"
                else "unknown XC_FAMILY xcfunctional::fxc"))
  end.
Proof.
  intros Hpol Hargs Hcontrib.
  destruct (make_libxc_args_layout this t true args Hargs) as (t0 & Ht0 & _).
  unfold XCfunctional.fxc_apply, XCfunctional.fxc_apply_body.
  rewrite Hpol, Hargs. simpl negb. cbn [rbind].
  pose proof Ht0 as Hrd%rd_Ok. rewrite Hrd. cbn [rbind]. cbv zeta.
  destruct (XCfunctional.funcs this) as [|func rest].
  - exists t0. split; [done|]. cbn [XCfunctional.for_funcs rbind XCfunctional.result_acc].
    rewrite check_nan_zeros. cbn [rbind].
    unfold XCfunctional.zeros. by rewrite Nat2Z.id.
  - cbn [XCfunctional.for_funcs].
    unfold XCfunctional.fxc_step at 1, XCfunctional.fxc_kernels,
      XCfunctional.fxc_result1, XCfunctional.has_exc_case.
    destruct (XCfunctional.family func.1);
      destruct Hcontrib as [-> | [-> | ->]]; reflexivity.
Qed.

(** The statement above for pure Hartree-Fock, which has no functional. *)
Lemma fxc_apply_potential_contribution_witness :
  exists t0, XCfunctional.one_point 0.5 !! 0%nat = Some t0 /\
    XCfunctional.fxc_apply (hdr := XCfunctional.example_header)
      (lib := XCfunctional.constant_libxc (-1)%float)
      XCfunctional.hf_only (XCfunctional.one_point 0.5) 0 XCfunctional.potential_rho
    = Ok (replicate (length t0) 0%float).
Proof.
  apply (fxc_apply_potential_contribution (hdr := XCfunctional.example_header)
           (lib := XCfunctional.constant_libxc (-1)%float)
           XCfunctional.hf_only (XCfunctional.one_point 0.5)
           {| XCfunctional.rho := [1%float]; XCfunctional.sigma := [];
              XCfunctional.rho_pt := [1%float]; XCfunctional.sigma_pt := [] |}
           XCfunctional.potential_rho).
  - reflexivity.
  - vm_compute. reflexivity.
  - left. reflexivity.
Defined.

(** ** The order of derivatives *)

Lemma initialize_nderiv_from (fs : list (XCfunctional.xc_func_type * float)) (n : Z) :
  0 <= n ->
  fold_left (fun nderiv (f : XCfunctional.xc_func_type * float) =>
    let n1 := if XCfunctional.is_family (XCfunctional.family f.1) XCfunctional.XC_FAMILY_GGA
              then Z.max nderiv 1 else nderiv in
    let n2 := if XCfunctional.is_family (XCfunctional.family f.1) XCfunctional.XC_FAMILY_HYB_GGA
              then Z.max n1 1 else n1 in
    if XCfunctional.is_family (XCfunctional.family f.1) XCfunctional.XC_FAMILY_MGGA
    then Z.max n2 2 else n2) fs n
  = Z.max n
      (if existsb (fun f : XCfunctional.xc_func_type * float =>
             XCfunctional.is_family (XCfunctional.family f.1) XCfunctional.XC_FAMILY_MGGA) fs
       then 2
       else if existsb (fun f : XCfunctional.xc_func_type * float =>
                  XCfunctional.is_family (XCfunctional.family f.1) XCfunctional.XC_FAMILY_GGA
                  || XCfunctional.is_family (XCfunctional.family f.1) XCfunctional.XC_FAMILY_HYB_GGA) fs
            then 1 else 0).
Proof.
  revert n. induction fs as [|f fs IH]; intros n Hn; simpl; [lia|].
  rewrite IH.
  - destruct (XCfunctional.family f.1); simpl;
      repeat match goal with |- context [existsb ?p ?l] => destruct (existsb p l) end;
      lia.
  - destruct (XCfunctional.family f.1); simpl; lia.
Qed.

(** X11.  The order of derivatives that [initialize] computes from the
    list of functionals is 2 when there is a meta-GGA among them,
    otherwise 1 when there is a GGA or a hybrid GGA, and otherwise 0; it
    does not depend on the order or the weights of the functionals. *)
Theorem initialize_nderiv_closed_form (fs : list (XCfunctional.xc_func_type * float)) :
  XCfunctional.initialize_nderiv fs
  = if existsb (fun f : XCfunctional.xc_func_type * float =>
          XCfunctional.is_family (XCfunctional.family f.1) XCfunctional.XC_FAMILY_MGGA) fs
    then 2
    else if existsb (fun f : XCfunctional.xc_func_type * float =>
               XCfunctional.is_family (XCfunctional.family f.1) XCfunctional.XC_FAMILY_GGA
               || XCfunctional.is_family (XCfunctional.family f.1) XCfunctional.XC_FAMILY_HYB_GGA) fs
         then 1 else 0.
Proof.
  unfold XCfunctional.initialize_nderiv. rewrite initialize_nderiv_from by lia.
  repeat match goal with |- context [existsb ?p ?l] => destruct (existsb p l) end; lia.
Qed.

(* ===================================================================== *)
(** * More on the handle [Function] *)
(* ===================================================================== *)

Section Handle_more.
Context {FI : FunctionImpl}.
Implicit Types (this f g : Function.Function) (w : Function.world).

(** What a transform through a handle that points to the container [i]
    does, by the flag of [i]. *)
Lemma compress_initialized this w p i fence :
  Function.impl this = Some p -> Function.heap w !! p = Some i ->
  Function.compress this fence w
  = if impl_is_compressed i then Ok (tt, w)
    else Ok (tt, Function.World (<[p := (impl_compress fence i).1]> (Function.heap w))
                   (Function.sent w ++ (impl_compress fence i).2)).
Proof.
  intros Hp Hi. unfold_handle. rewrite Hp. simpl. rewrite Hi. simpl.
  destruct (impl_is_compressed i); simpl; [done|]. by rewrite Hi.
Qed.

Lemma reconstruct_initialized this w p i fence :
  Function.impl this = Some p -> Function.heap w !! p = Some i ->
  Function.reconstruct this fence w
  = if impl_is_compressed i
    then Ok (tt, Function.World (<[p := (impl_reconstruct fence i).1]> (Function.heap w))
                   (Function.sent w ++ (impl_reconstruct fence i).2))
    else Ok (tt, w).
Proof.
  intros Hp Hi. unfold_handle. rewrite Hp. simpl. rewrite Hi. simpl.
  destruct (impl_is_compressed i); simpl; [|done]. by rewrite Hi.
Qed.


End Handle_more.



(** X15.  Handles that hold the same pointer see one container: after
    [compress] through one of them on a function that is not compressed,
    [is_compressed] through the other answers with the flag of the
    container that [FunctionImpl::compress] has left, in the world that
    [compress] has left. *)
Theorem compress_seen_through_alias {FI : FunctionImpl}
    (f g : Function.Function) (fence : bool) (w : Function.world)
    (p : positive) (i : implT) :
  Function.impl f = Some p -> Function.impl g = Some p ->
  Function.heap w !! p = Some i ->
  impl_is_compressed i = false ->
  exists w',
    Function.compress f fence w = Ok (tt, w') /\
    Function.heap w' !! p = Some (impl_compress fence i).1 /\
    Function.is_compressed g w'
    = Ok (impl_is_compressed (impl_compress fence i).1, w').
Proof.
  intros Hf Hg Hi Hflag.
  rewrite (compress_initialized f w p i fence Hf Hi), Hflag.
  eexists. split; [reflexivity|]. simpl.
  split; [by rewrite lookup_insert_eq|].
  apply (is_compressed_initialized g _ p); [done|]. simpl. by rewrite lookup_insert_eq.
Qed.

(** The statement above in the example world, with a copy of the handle. *)
Lemma compress_seen_through_alias_witness :
  exists w' : Example.world0,
    Function.compress Example.line_handle true Example.line_world = Ok (tt, w') /\
    Function.heap w' !! 1%positive
      = Some (impl_compress (FunctionImpl := Example.impl0) true Example.line_tree).1 /\
    Function.is_compressed (Function.Handle (Function.impl Example.line_handle)) w'
    = Ok (impl_is_compressed (FunctionImpl := Example.impl0)
            (impl_compress (FunctionImpl := Example.impl0) true Example.line_tree).1, w').
Proof.
  apply (compress_seen_through_alias (FI := Example.impl0)
           Example.line_handle (Function.Handle (Function.impl Example.line_handle))
           true Example.line_world 1%positive Example.line_tree);
    reflexivity.
Defined.

(** X16.  When the container reports the representation that a transform
    has given it, a transform through the handle is idempotent, and
    [compress] followed by [reconstruct] on a reconstructed function calls
    [FunctionImpl::compress] and then [FunctionImpl::reconstruct] on the
    one container, once each, and sends what these two send, in this
    order. *)
Theorem compress_then_reconstruct {FI : FunctionImpl}
    (this : Function.Function) (fence1 fence2 : bool) (w : Function.world)
    (p : positive) (i : implT) :
  Function.impl this = Some p ->
  Function.heap w !! p = Some i ->
  impl_is_compressed i = false ->
  impl_is_compressed (impl_compress fence1 i).1 = true ->
  let c := impl_compress fence1 i in
  let r := impl_reconstruct fence2 c.1 in
  exists w1 w2,
    Function.compress this fence1 w = Ok (tt, w1) /\
    Function.compress this fence2 w1 = Ok (tt, w1) /\
    Function.reconstruct this fence2 w1 = Ok (tt, w2) /\
    Function.heap w2 = <[p := r.1]> (Function.heap w) /\
    Function.sent w2 = Function.sent w ++ c.2 ++ r.2.
Proof.
  intros Hp Hi Hflag Hflag' c r. fold c in Hflag'.
  set (w1 := Function.World (<[p := c.1]> (Function.heap w)) (Function.sent w ++ c.2)).
  assert (Function.heap w1 !! p = Some c.1) as Hi1 by (simpl; apply lookup_insert_eq).
  exists w1, (Function.World (<[p := r.1]> (Function.heap w1)) (Function.sent w1 ++ r.2)).
  split; [by rewrite (compress_initialized this w p i fence1 Hp Hi), Hflag|].
  split; [by rewrite (compress_initialized this w1 p c.1 fence2 Hp Hi1), Hflag'|].
  split; [by rewrite (reconstruct_initialized this w1 p c.1 fence2 Hp Hi1), Hflag'|].
  simpl. split; [by rewrite insert_insert_eq|]. by rewrite <- app_assoc.
Qed.

(** The statement above in the example world. *)
Lemma compress_then_reconstruct_witness :
  exists w1 w2 : Example.world0,
    Function.compress Example.line_handle true Example.line_world = Ok (tt, w1) /\
    Function.compress Example.line_handle true w1 = Ok (tt, w1) /\
    Function.reconstruct Example.line_handle true w1 = Ok (tt, w2) /\
    Function.heap w2
      = <[1%positive := (impl_reconstruct (FunctionImpl := Example.impl0) true
                           (impl_compress (FunctionImpl := Example.impl0) true
                              Example.line_tree).1).1]>
          (Function.heap Example.line_world) /\
    Function.sent w2
      = Function.sent Example.line_world
        ++ (impl_compress (FunctionImpl := Example.impl0) true Example.line_tree).2
        ++ (impl_reconstruct (FunctionImpl := Example.impl0) true
              (impl_compress (FunctionImpl := Example.impl0) true Example.line_tree).1).2.
Proof.
  apply (compress_then_reconstruct (FI := Example.impl0)
           Example.line_handle true true Example.line_world 1%positive
           Example.line_tree); reflexivity.
Defined.

(* ===================================================================== *)
(** * Steepest descent *)
(* ===================================================================== *)

Lemma gaxpy_length alpha x g beta x' :
  Optimizer.gaxpy alpha x g beta = Ok x' -> length x' = length x.
Proof.
  unfold Optimizer.gaxpy.
  destruct (Nat.eqb_spec (length x) (length g)) as [Hlen|]; [|done].
  intros [= <-]. rewrite length_zip_with. lia.
Qed.

Lemma gaxpy_conforming alpha x g beta :
  length x = length g -> exists x', Optimizer.gaxpy alpha x g beta = Ok x'.
Proof.
  intros Hlen. unfold Optimizer.gaxpy.
  destruct (Nat.eqb_spec (length x) (length g)); [by eexists|done].
Qed.

(** The search for a lower value goes on for ever when there is none. *)
Lemma search_without_end (tg : Optimizer.OptimizationTargetInterface)
    (n : nat) (g : list float) (f0 : float) :
  length g = n ->
  (forall y, length y = n ->
     exists fy gy, Optimizer.value_and_gradient tg y = Ok (fy, gy) /\
                   (fy <? f0)%float = false) ->
  forall fuel x step, length x = n -> Optimizer.search fuel tg x g f0 step = None.
Proof.
  intros Hg Hlow. induction fuel as [|fuel IH]; intros x step Hx; simpl; [done|].
  destruct (gaxpy_conforming 1 x g (- step)) as [x1 Hx1]; [congruence|].
  rewrite Hx1. pose proof (gaxpy_length _ _ _ _ _ Hx1) as Hlen1.
  destruct (Hlow x1) as (fy & gy & -> & ->); [congruence|].
  destruct (gaxpy_conforming 1 x1 g step) as [x2 Hx2]; [congruence|].
  rewrite Hx2. apply IH. apply gaxpy_length in Hx2. congruence.
Qed.

(** X17.  [SteepestDescent::optimize] does not return when it is started
    where the target has its least value: if the target evaluates
    everywhere, gives a gradient of the size of [x] at the start, and
    nowhere a value below the one at the start, then the inner
    [while (1)] loop halves the step for ever, however many turns it is
    given. *)
Theorem optimize_without_end (sd : Optimizer.SteepestDescent)
    (x : list float) (f0 : float) (g0 : list float) :
  Optimizer.value_and_gradient (Optimizer.target sd) x = Ok (f0, g0) ->
  length g0 = length x ->
  (forall y, length y = length x ->
     exists fy gy,
       Optimizer.value_and_gradient (Optimizer.target sd) y = Ok (fy, gy) /\
       (fy <? f0)%float = false) ->
  forall fuel, Optimizer.optimize fuel sd x = None.
Proof.
  intros Hstart Hg Hlow fuel. unfold Optimizer.optimize. rewrite Hstart.
  change 100%nat with (S 99). cbn [Optimizer.iterate]. cbn [Optimizer.target Optimizer.with_progress].
  by rewrite (search_without_end (Optimizer.target sd) (length x) g0 f0 Hg Hlow).
Qed.

(** ** The target [Test] has no value below zero *)

Lemma round_aux_not_negative prec emax mx ex lx :
  Optimizer.not_negative (binary_round_aux prec emax false mx ex lx).
Proof.
  unfold binary_round_aux.
  destruct (shr_fexp _ _ _ _ _) as [mrs' e'].
  destruct (shr_fexp _ _ _ _ _) as [mrs'' e''].
  destruct (shr_m mrs''); simpl; [done| |done].
  by destruct (_ <=? _).
Qed.

Lemma SFmul_not_negative prec emax x y :
  Optimizer.not_negative x -> Optimizer.not_negative y ->
  Optimizer.not_negative (SFmul prec emax x y).
Proof.
  destruct x as [sx|sx| |sx mx ex], y as [sy|sy| |sy my ey]; simpl;
    try done; try (intros; subst; done).
  intros -> ->. apply round_aux_not_negative.
Qed.

Lemma SFmul_square_not_negative prec emax x :
  Optimizer.not_negative (SFmul prec emax x x).
Proof.
  destruct x as [sx|sx| |sx mx ex]; simpl; try done; try by destruct sx.
  replace (xorb sx sx) with false by (by destruct sx).
  apply round_aux_not_negative.
Qed.

Lemma SFadd_not_negative prec emax x y :
  Optimizer.not_negative x -> Optimizer.not_negative y ->
  Optimizer.not_negative (SFadd prec emax x y).
Proof.
  destruct x as [sx|sx| |sx mx ex], y as [sy|sy| |sy my ey]; simpl;
    try done; try (intros; subst; done).
  - intros _ _. by destruct sx, sy.
  - intros -> ->. simpl. unfold binary_round.
    destruct (shl_align _ _ _) as [mz ez]. apply round_aux_not_negative.
Qed.

Lemma not_negative_ltb_zero (a : float) :
  Optimizer.not_negative (Prim2SF a) -> (a <? 0)%float = false.
Proof.
  rewrite ltb_spec. change (Prim2SF 0) with (S754_zero false).
  unfold SFltb. destruct (Prim2SF a) as [s|s| |s m e]; simpl; try done;
    by intros ->.
Qed.

Lemma sumsq_not_negative (x : list float) :
  Optimizer.not_negative (Prim2SF (Optimizer.sumsq x)).
Proof.
  unfold Optimizer.sumsq.
  assert (Optimizer.not_negative (Prim2SF 0)) as H0 by done.
  revert H0. generalize 0%float as s.
  induction x as [|a x IH]; intros s Hs; simpl; [done|].
  apply IH. rewrite add_spec, mul_spec.
  apply SFadd_not_negative; [done|]. apply SFmul_square_not_negative.
Qed.

Lemma Test_value_not_negative (y : list float) :
  exists fy, Optimizer.Test_value y = Ok fy /\ (fy <? 0)%float = false.
Proof.
  eexists. split; [reflexivity|].
  apply not_negative_ltb_zero. rewrite mul_spec.
  apply SFmul_not_negative; [by vm_compute|apply sumsq_not_negative].
Qed.

(** The statement above for the target [Test] of the file, started at
    its minimum, the origin of the plane, with a thousand turns. *)
Lemma optimize_without_end_witness :
  Optimizer.optimize 1000 Optimizer.descent_on_Test [0%float; 0%float] = None.
Proof.
  apply (optimize_without_end Optimizer.descent_on_Test [0%float; 0%float]
           0%float [0%float; 0%float]).
  - reflexivity.
  - reflexivity.
  - intros y _. destruct (Test_value_not_negative y) as (fy & Hfy & Hlow).
    exists fy, ((fun a => (a * 3)%float) <$> y). split; [|exact Hlow].
    simpl. unfold Optimizer.value_and_gradient_default. by rewrite Hfy.
Defined.

(** ** What [optimize] leaves when it returns *)

Lemma search_found (tg : Optimizer.OptimizationTargetInterface) fuel x g f0 step
    x' g' f' step' :
  Optimizer.search fuel tg x g f0 step = Some (Ok (x', g', f', step')) ->
  Optimizer.value_and_gradient tg x' = Ok (f', g') /\
  (f' <? f0)%float = true /\
  length x' = length x.
Proof.
  revert x step. induction fuel as [|fuel IH]; intros x step; simpl; [done|].
  destruct (Optimizer.gaxpy 1 x g (- step)) as [x1|] eqn:Hx1; [|done].
  apply gaxpy_length in Hx1.
  destruct (Optimizer.value_and_gradient tg x1) as [[fnew gnew]|] eqn:Hval; [|done].
  destruct (fnew <? f0)%float eqn:Hlow.
  - intros [= <- <- <- <-]. by repeat split.
  - destruct (Optimizer.gaxpy 1 x1 g step) as [x2|] eqn:Hx2; [|done].
    apply gaxpy_length in Hx2. intros Hrec.
    destruct (IH _ _ Hrec) as (? & ? & ?). repeat split; [done|done|congruence].
Qed.

(** X18.  When [SteepestDescent::optimize] returns, the value it has
    stored in [f] is the value of the target at the [x] it leaves, the
    norm it has stored is that of the gradient there, the flag it returns
    is [converged()], and [x] has kept its size; target and tolerances are
    what they were. *)
Theorem optimize_returns (fuel : nat) (sd sd' : Optimizer.SteepestDescent)
    (x x' : list float) (b : bool) :
  Optimizer.optimize fuel sd x = Some (Ok (b, sd', x')) ->
  b = Optimizer.converged sd' /\
  length x' = length x /\
  Optimizer.target sd' = Optimizer.target sd /\
  Optimizer.tol sd' = Optimizer.tol sd /\
  exists f' g' g2,
    Optimizer.value_and_gradient (Optimizer.target sd) x' = Ok (f', g') /\
    Optimizer.f sd' = Some f' /\
    Optimizer.gradient (Optimizer.target sd) x' = Ok g2 /\
    Optimizer.gnorm sd' = Optimizer.normf g2.
Proof.
  unfold Optimizer.optimize.
  destruct (Optimizer.value_and_gradient (Optimizer.target sd) x)
    as [[f0 g0]|] eqn:Hstart; [|done].
  set (P := fun (s : Optimizer.SteepestDescent) (y : list float) =>
    length y = length x /\
    Optimizer.target s = Optimizer.target sd /\
    Optimizer.tol s = Optimizer.tol sd).
  set (R := fun (s : Optimizer.SteepestDescent) (y : list float) =>
    exists f' g' g2,
      Optimizer.value_and_gradient (Optimizer.target sd) y = Ok (f', g') /\
      Optimizer.f s = Some f' /\
      Optimizer.gradient (Optimizer.target sd) y = Ok g2 /\
      Optimizer.gnorm s = Optimizer.normf g2).
  assert (forall n s y g f step,
            P s y -> (n = 0%nat -> R s y) ->
            Optimizer.iterate fuel n s y g f step = Some (Ok (b, sd', x')) ->
            b = Optimizer.converged sd' /\ P sd' x' /\ R sd' x') as Hiter.
  { induction n as [|n IH]; intros s y g f step HP HR; simpl.
    - intros [= <- <- <-]. by split; [|split; [|apply HR]].
    - destruct (Optimizer.search fuel (Optimizer.target s) y g f step)
        as [[found|e]|] eqn:Hsearch; [|done|done].
      destruct found as [[[y1 g1] f1] step1].
      destruct HP as (Hlen & Htg & Htol).
      apply search_found in Hsearch as (Hval & _ & Hlen1).
      destruct (Optimizer.gradient (Optimizer.target s) y1) as [g2|] eqn:Hgrad; [|done].
      assert (P (Optimizer.with_progress s f1 (Optimizer.normf g2)) y1) as HP'.
      { repeat split; simpl; congruence. }
      assert (R (Optimizer.with_progress s f1 (Optimizer.normf g2)) y1) as HR'.
      { exists f1, g1, g2. rewrite <- Htg. by repeat split. }
      destruct (Optimizer.converged
                  (Optimizer.with_progress s f1 (Optimizer.normf g2))) eqn:Hconv.
      + intros Heq. simplify_eq. split; [by rewrite Hconv|by split].
      + by apply IH. }
  intros Hrun. apply Hiter in Hrun as (Hb & (Hlen & Htg & Htol) & HR).
  - by repeat split.
  - by repeat split.
  - discriminate.
Qed.

(** The statement above for [Test] started at 1 with tolerance 100: the
    first step that is accepted is 0.625, to [x = -0.875]. *)
Lemma optimize_returns_witness :
  let sd' := Optimizer.with_progress Optimizer.coarse_descent_on_Test
               1.1484375%float 2.625%float in
  true = Optimizer.converged sd' /\
  length [(-0.875)%float] = length [1%float] /\
  Optimizer.target sd' = Optimizer.target Optimizer.coarse_descent_on_Test /\
  Optimizer.tol sd' = Optimizer.tol Optimizer.coarse_descent_on_Test /\
  exists f' g' g2,
    Optimizer.value_and_gradient (Optimizer.target Optimizer.coarse_descent_on_Test)
      [(-0.875)%float] = Ok (f', g') /\
    Optimizer.f sd' = Some f' /\
    Optimizer.gradient (Optimizer.target Optimizer.coarse_descent_on_Test)
      [(-0.875)%float] = Ok g2 /\
    Optimizer.gnorm sd' = Optimizer.normf g2.
Proof.
  apply (optimize_returns 10 Optimizer.coarse_descent_on_Test
           (Optimizer.with_progress Optimizer.coarse_descent_on_Test
              1.1484375%float 2.625%float)
           [1%float] [(-0.875)%float] true).
  reflexivity.
Defined.
